(** * RAPPOR client encoder (client/cpp/encoder.cc)

    A shallow embedding of [rappor::Encoder]: the two constructors,
    [IsValid], [MakeBloomFilter], [GetPrrMasks], [_EncodeInternal] and
    [Encode], followed by the properties of the encoding pipeline.

    Conventions of the embedding.
    - C++ [int] values are integers of [Z]; the operations that C++ leaves
      undefined ([%] by zero, a shift count outside [0, 32), an array read
      past its end, a read of a member that was never initialised, a store
      through a pointer to no object) yield [Undefined], and a failed
      [assert] yields [AssertFail].
    - [Bits] is an unsigned integer type declared in encoder.h, which is not
      part of the sources at hand: its size in bytes is the section variable
      [sizeof_Bits], and [kMaxBits = sizeof_Bits * 8] as at encoder.cc:31.
    - [std::string] is a list of bytes; the digests are byte arrays of fixed
      length (16 for MD5, 32 for HMAC-SHA256).
    - [prob_f_] is the exact rational value of the floating-point member;
      the product [prob_f_ * 128] is exact in binary floating point, so the
      conversion to [uint8_t] truncates that rational.
    - The calls to [log], [PrintMd5] and [PrintSha256] only write to stderr
      and are left out. *)

From Stdlib Require Import ZArith QArith Qround Lia.
From Stdlib Require Import Strings.Byte.
From stdpp Require Import base option list vector gmap.

Local Open Scope Z_scope.

(** ** Outcomes of a C++ computation *)

Inductive result (A : Type) : Type :=
  | Ret (a : A)
  | AssertFail
  | Undefined.
Arguments Ret {A} a.
Arguments AssertFail {A}.
Arguments Undefined {A}.

#[global] Instance result_ret : MRet result := @Ret.
#[global] Instance result_bind : MBind result := λ A B f m,
  match m with
  | Ret a => f a
  | AssertFail => AssertFail
  | Undefined => Undefined
  end.

Definition assert (b : bool) : result unit :=
  if b then Ret () else AssertFail.

(** [for (int i = i0; i < i0 + count; ++i) acc = body(i, acc);] *)
Fixpoint for_loop {A : Type} (count : nat) (i : Z)
    (body : Z → A → result A) (acc : A) : result A :=
  match count with
  | O => Ret acc
  | S k => acc' ← body i acc; for_loop k (i + 1) body acc'
  end.

(** [for (int i = 0; i < n; ++i) ...]: no iteration when [n <= 0]. *)
Definition for_int {A : Type} (n : Z) (body : Z → A → result A) (acc : A)
    : result A :=
  for_loop (Z.to_nat n) 0 body acc.

(** ** Integer operations of C++ on [int] (32 bits, two's complement) *)

Definition to_int (z : Z) : Z := (z + 2 ^ 31) mod 2 ^ 32 - 2 ^ 31.

(** [a % b] on [int]: undefined for [b = 0], otherwise the remainder of the
    division truncated towards zero. *)
Definition int_rem (a b : Z) : result Z :=
  if decide (b = 0) then Undefined else Ret (Z.rem a b).

(** [a << b] on [int]: undefined for a shift count outside [0, 32) and for a
    negative [a]; otherwise, when [a * 2^b] fits the unsigned type, that
    value converted back to [int] (so that [1 << 31] is [INT_MIN]). *)
Definition int_shl (a b : Z) : result Z :=
  if decide (0 ≤ b < 32 ∧ 0 ≤ a ∧ a * 2 ^ b < 2 ^ 32)
  then Ret (to_int (a * 2 ^ b))
  else Undefined.

(** [static_cast<uint8_t>(x)] of a floating-point [x]: truncation towards
    zero, undefined when the truncated value is not a [uint8_t]. *)
Definition float_to_uint8 (x : Q) : result Z :=
  let t := Z.quot (Qnum x) (Zpos (Qden x)) in
  if decide (0 ≤ t ≤ 255) then Ret t else Undefined.

(** ** Bytes, strings and digests *)

Definition std_string : Type := list byte.

Definition byte_to_Z (b : byte) : Z := Z.of_N (Byte.to_N b).

(** Conversion of an [int] to [unsigned char]: reduction modulo 256. *)
Definition byte_of_Z (z : Z) : byte :=
  default x00 (Byte.of_N (Z.to_N (z mod 256))).

(** [typedef unsigned char Md5Digest[16]] and
    [typedef unsigned char Sha256Digest[32]]. *)
Definition Md5Digest : Type := vec byte 16.
Definition Sha256Digest : Type := vec byte 32.

(** The digest functions fill the whole output array and have no other
    effect. *)
Definition Md5Func : Type := std_string → Md5Digest.
Definition HmacFunc : Type := std_string → std_string → Sha256Digest.

(** [a[i]] for an array of [n] bytes and an [int] index. *)
Definition array_get {n : nat} (a : vec byte n) (i : Z) : result Z :=
  if decide (0 ≤ i)
  then match vec_to_list a !! Z.to_nat i with
       | Some b => Ret (byte_to_Z b)
       | None => Undefined
       end
  else Undefined.

(** ** The random mask source

    [IrrRandInterface::PMask] and [QMask] take a pointer to a [Bits]; they
    return [false] on failure and otherwise store a mask.  The source may
    consume entropy, which is its state [S]. *)
Record IrrRandInterface (S : Type) : Type := {
  PMask : S → option Z * S;
  QMask : S → option Z * S
}.
Arguments PMask {S} _ _.
Arguments QMask {S} _ _.

(** ** Parameters, dependencies and the encoder object *)

Record Params : Type := {
  num_bits : Z;
  num_hashes : Z;
  prob_f : Q
}.

Module Deps.
Record t (S : Type) : Type := {
  cohort_ : Z;
  md5_func_ : Md5Func;
  client_secret_ : std_string;
  hmac_func_ : HmacFunc;
  irr_rand_ : IrrRandInterface S
}.
Arguments cohort_ {S} _.
Arguments md5_func_ {S} _.
Arguments client_secret_ {S} _.
Arguments hmac_func_ {S} _.
Arguments irr_rand_ {S} _.
End Deps.

(** The members of [class Encoder].  The two members that only the body of
    a constructor assigns hold [None] until they are given a value. *)
Record Encoder (S : Type) : Type := {
  num_bits_ : Z;
  num_hashes_ : Z;
  prob_f_ : Q;
  cohort_ : Z;
  md5_func_ : Md5Func;
  client_secret_ : std_string;
  hmac_func_ : HmacFunc;
  irr_rand_ : IrrRandInterface S;
  num_bytes_ : option Z;
  is_valid_ : option bool
}.
Arguments num_bits_ {S} _.
Arguments num_hashes_ {S} _.
Arguments prob_f_ {S} _.
Arguments cohort_ {S} _.
Arguments md5_func_ {S} _.
Arguments client_secret_ {S} _.
Arguments hmac_func_ {S} _.
Arguments irr_rand_ {S} _.
Arguments num_bytes_ {S} _.
Arguments is_valid_ {S} _.

(** ** Memory, the world and the state monad of [_EncodeInternal] *)

Definition addr : Type := positive.

(** The calls made on the random mask source, oldest first. *)
Inductive event : Type := EvPMask | EvQMask.

(** A cell of type [Bits] is allocated when it is in the map, and holds
    [None] while its value is indeterminate. *)
Record world (S : Type) : Type := {
  mem : gmap addr (option Z);
  rand : S;
  trace : list event
}.
Arguments mem {S} _.
Arguments rand {S} _.
Arguments trace {S} _.

Definition M (S A : Type) : Type := world S → result (A * world S).

#[global] Instance M_ret {S} : MRet (M S) := λ A a w, Ret (a, w).
#[global] Instance M_bind {S} : MBind (M S) := λ A B f m w,
  match m w with
  | Ret (a, w') => f a w'
  | AssertFail => AssertFail
  | Undefined => Undefined
  end.

Definition lift {S A} (r : result A) : M S A := λ w,
  match r with
  | Ret a => Ret (a, w)
  | AssertFail => AssertFail
  | Undefined => Undefined
  end.

(** [*p = v] *)
Definition store {S} (p : addr) (v : Z) : M S unit := λ w,
  if decide (p ∈ dom (mem w))
  then Ret ((), {| mem := <[p := Some v]> (mem w);
                   rand := rand w; trace := trace w |})
  else Undefined.

(** A local variable [Bits x;]: a new cell with an indeterminate value, at
    an address that is neither in use nor among the addresses [avoid] that
    the caller holds. *)
Definition alloca {S} (avoid : gset addr) : M S addr := λ w,
  let p := fresh (avoid ∪ dom (mem w)) in
  Ret (p, {| mem := <[p := None]> (mem w);
             rand := rand w; trace := trace w |}).

(** End of the lifetime of a local variable. *)
Definition dealloc {S} (p : addr) : M S unit := λ w,
  Ret ((), {| mem := delete p (mem w); rand := rand w; trace := trace w |}).

Definition call_mask {S} (ev : event) (f : S → option Z * S)
    : M S (option Z) := λ w,
  let '(r, s) := f (rand w) in
  Ret (r, {| mem := mem w; rand := s; trace := trace w ++ [ev] |}).

(** ** The encoder *)

Section encoder.

(** [sizeof(Bits)] *)
Variable sizeof_Bits : Z.

Context {S : Type}.

(** encoder.cc:31 *)
Definition kMaxBits : Z := sizeof_Bits * 8.

(** Conversion of an integer to [Bits]. *)
Definition to_Bits (z : Z) : Z := z mod 2 ^ kMaxBits.

(** [x |= y] for [x] of type [Bits] and [y] of type [int]: [y] is
    converted to the common type (sign-extended when [Bits] is wider than
    [int]) and the result is stored in a [Bits]. *)
Definition Bits_or_int (x y : Z) : Z := to_Bits (Z.lor x y).

(** [~x] on [Bits]. *)
Definition Bits_not (x : Z) : Z := to_Bits (Z.lnot x).

(** encoder.cc:33-79 *)
Definition Encoder_new (params : Params) (cohort : Z) (md5_func : Md5Func)
    (client_secret : std_string) (hmac_func : HmacFunc)
    (irr_rand : IrrRandInterface S) : Encoder S :=
  let num_bits_ := num_bits params in
  let is_valid_ := true in
  let is_valid_ := if decide (num_bits_ > kMaxBits) then false else is_valid_ in
  let '(num_bytes_, is_valid_) :=
    if decide (Z.rem num_bits_ 8 = 0)
    then (Z.quot num_bits_ 8, is_valid_)
    else (0, false) in
  {| num_bits_ := num_bits_;
     num_hashes_ := num_hashes params;
     prob_f_ := prob_f params;
     cohort_ := cohort;
     md5_func_ := md5_func;
     client_secret_ := client_secret;
     hmac_func_ := hmac_func;
     irr_rand_ := irr_rand;
     num_bytes_ := Some num_bytes_;
     is_valid_ := Some is_valid_ |}.

(** encoder.cc:81-90: the member initialiser list names neither
    [num_bytes_] nor [is_valid_], and the body is empty. *)
Definition Encoder_of_deps (params : Params) (deps : Deps.t S) : Encoder S :=
  {| num_bits_ := num_bits params;
     num_hashes_ := num_hashes params;
     prob_f_ := prob_f params;
     cohort_ := Deps.cohort_ deps;
     md5_func_ := Deps.md5_func_ deps;
     client_secret_ := Deps.client_secret_ deps;
     hmac_func_ := Deps.hmac_func_ deps;
     irr_rand_ := Deps.irr_rand_ deps;
     num_bytes_ := None;
     is_valid_ := None |}.

(** encoder.cc:92-94 *)
Definition IsValid (e : Encoder S) : result bool :=
  match is_valid_ e with
  | Some b => Ret b
  | None => Undefined
  end.

(** encoder.cc:120-133: the digest input. *)
Definition hash_input_of (cohort : Z) (value : std_string) : std_string :=
  let hash_input := replicate (4 + length value) x00 in
  let c := byte_of_Z (Z.land cohort 255) in
  let hash_input := <[0%nat := x00]> hash_input in
  let hash_input := <[1%nat := x00]> hash_input in
  let hash_input := <[2%nat := x00]> hash_input in
  let hash_input := <[3%nat := c]> hash_input in
  foldl (λ h '(i, b), <[(i + 4)%nat := b]> h) hash_input (imap pair value).

(** encoder.cc:114-147 *)
Definition MakeBloomFilter (e : Encoder S) (value : std_string) : result Z :=
  let bloom := 0 in
  let hash_input := hash_input_of (cohort_ e) value in
  let md5 := md5_func_ e hash_input in
  for_int (num_hashes_ e) (λ i bloom,
    byte ← array_get md5 i;
    bit_to_set ← int_rem byte (num_bits_ e);
    one_bit ← int_shl 1 bit_to_set;
    Ret (Bits_or_int bloom one_bit)) bloom.

(** encoder.cc:150-181; the two output parameters are the components of
    the result. *)
Definition GetPrrMasks (e : Encoder S) (value : std_string)
    : result (Z * Z) :=
  let sha256 := hmac_func_ e (client_secret_ e) value in
  _ ← assert (bool_decide (num_bits_ e ≤ 32));
  threshold128 ← float_to_uint8 (prob_f_ e * 128)%Q;
  for_int (num_bits_ e) (λ i '(uniform, f_mask),
    byte ← array_get sha256 i;
    let u_bit := Z.land byte 1 in
    u_shifted ← int_shl u_bit i;
    let uniform := Bits_or_int uniform u_shifted in
    let rand128 := Z.shiftr byte 1 in
    let noise_bit := if decide (rand128 < threshold128) then 1 else 0 in
    n_shifted ← int_shl noise_bit i;
    let f_mask := Bits_or_int f_mask n_shifted in
    Ret (uniform, f_mask)) (0, 0).

(** encoder.cc:195 *)
Definition prr_of (bloom uniform f_mask : Z) : Z :=
  Z.lor (Z.land bloom (Bits_not f_mask)) (Z.land uniform f_mask).

(** encoder.cc:210 *)
Definition irr_of (prr p_bits q_bits : Z) : Z :=
  Z.lor (Z.land p_bits (Bits_not prr)) (Z.land q_bits prr).

(** encoder.cc:183-214.  A mask arrives in a variable of type [Bits]. *)
Definition _EncodeInternal (e : Encoder S) (value : std_string)
    (bloom_out prr_out irr_out : addr) : M S bool :=
  bloom ← lift (MakeBloomFilter e value);
  _ ← store bloom_out bloom;
  masks ← lift (GetPrrMasks e value);
  let prr := prr_of bloom masks.1 masks.2 in
  _ ← store prr_out prr;
  p ← call_mask EvPMask (PMask (irr_rand_ e));
  match p with
  | None => mret false
  | Some p_bits =>
      q ← call_mask EvQMask (QMask (irr_rand_ e));
      match q with
      | None => mret false
      | Some q_bits =>
          let irr := irr_of prr (to_Bits p_bits) (to_Bits q_bits) in
          _ ← store irr_out irr;
          mret true
      end
  end.

(** encoder.cc:216-220 *)
Definition Encode (e : Encoder S) (value : std_string) (irr_out : addr)
    : M S bool :=
  unused_bloom ← alloca {[irr_out]};
  unused_prr ← alloca {[irr_out]};
  ok ← _EncodeInternal e value unused_bloom unused_prr irr_out;
  _ ← dealloc unused_prr;
  _ ← dealloc unused_bloom;
  mret ok.

End encoder.

Arguments kMaxBits sizeof_Bits /.

(** ** Test doubles

    A digest stub that ignores its input, as the unit tests of the encoder
    use, and a mask source without state that answers each call with a
    fixed outcome. *)

Definition md5_stub (b0 b1 : byte) : Md5Func := λ _,
  [# b0; b1; x00; x00; x00; x00; x00; x00;
     x00; x00; x00; x00; x00; x00; x00; x00].

Definition hmac_stub (b : byte) : HmacFunc := λ _ _, vreplicate 32 b.

Definition fixed_rand (p q : option Z) : IrrRandInterface unit :=
  {| PMask := λ s, (p, s); QMask := λ s, (q, s) |}.

Definition stub_encoder (sizeof_Bits : Z) (nbits nhashes : Z) (f : Q)
    (b0 b1 h : byte) (p q : option Z) : Encoder unit :=
  Encoder_new sizeof_Bits
    {| num_bits := nbits; num_hashes := nhashes; prob_f := f |}
    0 (md5_stub b0 b1) [] (hmac_stub h) (fixed_rand p q).

(** A caller's memory with three [Bits] variables, at the addresses 1, 2
    and 3, none of them assigned yet. *)
Definition caller_world : world unit :=
  {| mem := {[ 1%positive := None; 2%positive := None; 3%positive := None ]};
     rand := (); trace := [] |}.

(** A mask draw fails: the first call fails, or it succeeds and the second
    call fails. *)
Definition mask_draw_fails {S} (r : IrrRandInterface S) (s : S) : Prop :=
  (PMask r s).1 = None
  ∨ (∃ p, (PMask r s).1 = Some p) ∧ (QMask r (PMask r s).2).1 = None.

(** ** The specification of the Bloom filter, in the words of the design

    The bitwise OR, over the first [num_hashes] bytes of the digest of
    [0, 0, 0, cohort mod 256] followed by the value, of the one-bit vectors
    [1 << (byte mod num_bits)]. *)
Definition bloom_spec (nbits nhashes cohort : Z) (md5 : Md5Func)
    (value : std_string) : Z :=
  let digest := md5 ([x00; x00; x00; byte_of_Z (cohort mod 256)] ++ value) in
  foldr (λ b acc, Z.lor (Z.shiftl 1 (byte_to_Z b mod nbits)) acc) 0
        (take (Z.to_nat nhashes) (vec_to_list digest)).

(** Byte [i] of the keyed digest, as [GetPrrMasks] reads it. *)
Definition sha_byte (d : Sha256Digest) (i : Z) : Z :=
  default 0 (byte_to_Z <$> vec_to_list d !! Z.to_nat i).

(** The threshold in the words of the design: [floor(prob_f * 128)]. *)
Definition threshold_spec (f : Q) : Z := Qfloor (f * 128).

(** The deterministic part of [_EncodeInternal] (encoder.cc:187-195): the
    value that is stored through [prr_out]. *)
Definition prr_stage {S} (sizeof_Bits : Z) (e : Encoder S)
    (value : std_string) : result Z :=
  bloom ← MakeBloomFilter sizeof_Bits e value;
  masks ← GetPrrMasks sizeof_Bits e value;
  Ret (prr_of sizeof_Bits bloom masks.1 masks.2).

(** ** Debug output (encoder.cc:96-112)

    [PrintMd5] and [PrintSha256] write to stderr; the value of the model is
    the sequence of bytes written. *)

(** The digit that [%x] prints for a value below 16. *)
Definition hex_digit (n : Z) : byte :=
  nth (Z.to_nat n)
    [x30; x31; x32; x33; x34; x35; x36; x37; x38; x39;
     x61; x62; x63; x64; x65; x66] x30.

(** [fprintf(stderr, "%02x", b)] for an [unsigned char]: two digits, the
    first one a zero for a value below 16. *)
Definition printf_02x (b : byte) : std_string :=
  [hex_digit (byte_to_Z b / 16); hex_digit (byte_to_Z b mod 16)].

(** The loop over the [n] bytes of a digest, then the newline. *)
Definition print_digest {n : nat} (d : vec byte n) : std_string :=
  concat (printf_02x <$> vec_to_list d) ++ [x0a].

(** encoder.cc:96-103 *)
Definition PrintMd5 (md5 : Md5Digest) : std_string := print_digest md5.

(** encoder.cc:105-112 *)
Definition PrintSha256 (h : Sha256Digest) : std_string := print_digest h.

(** Reading two hexadecimal digits back, to compare printed digests. *)
Definition hex_value (c : byte) : option Z :=
  let v := byte_to_Z c in
  if decide (48 ≤ v ≤ 57) then Some (v - 48)
  else if decide (97 ≤ v ≤ 102) then Some (v - 87)
  else None.

Fixpoint read_hex (s : std_string) : option (list byte) :=
  match s with
  | [] => Some []
  | hi :: lo :: rest =>
      h ← hex_value hi; l ← hex_value lo; bs ← read_hex rest;
      Some (byte_of_Z (h * 16 + l) :: bs)
  | _ => None
  end.

(** * Properties *)

(** ** Construction and validity *)

Lemma IsValid_Encoder_new {S} sizeof_Bits params cohort md5 secret hmac
    (irr_rand : IrrRandInterface S) :
  IsValid (Encoder_new sizeof_Bits params cohort md5 secret hmac irr_rand)
  = Ret (bool_decide (num_bits params ≤ sizeof_Bits * 8
                      ∧ num_bits params mod 8 = 0)).
Proof.
  unfold IsValid, Encoder_new; simpl.
  assert (Hdiv : Z.rem (num_bits params) 8 = 0 ↔ num_bits params mod 8 = 0).
  { rewrite Z.rem_divide, Z.mod_divide by lia. reflexivity. }
  destruct (decide (num_bits params > sizeof_Bits * 8)) as [Hgt | Hle];
    destruct (decide (Z.rem (num_bits params) 8 = 0)) as [Hz | Hnz];
    simpl; f_equal; symmetry.
  - apply bool_decide_eq_false_2. lia.
  - apply bool_decide_eq_false_2. lia.
  - apply bool_decide_eq_true_2. split; [lia | tauto].
  - apply bool_decide_eq_false_2. tauto.
Qed.

Lemma valid_Encoder_new_bound {S} sizeof_Bits params cohort md5 secret hmac
    (irr_rand : IrrRandInterface S) :
  IsValid (Encoder_new sizeof_Bits params cohort md5 secret hmac irr_rand)
    = Ret true →
  num_bits params ≤ sizeof_Bits * 8 ∧ num_bits params mod 8 = 0.
Proof.
  rewrite IsValid_Encoder_new. intros [= H].
  by apply bool_decide_eq_true in H.
Qed.

(** ** Reading the digests *)

Lemma array_get_in_bounds {n : nat} (a : vec byte n) (i : Z) :
  0 ≤ i < Z.of_nat n →
  ∃ b, vec_to_list a !! Z.to_nat i = Some b
       ∧ array_get a i = Ret (byte_to_Z b).
Proof.
  intros Hi. unfold array_get.
  destruct (lookup_lt_is_Some_2 (vec_to_list a) (Z.to_nat i)) as [b Hb].
  { rewrite length_vec_to_list. lia. }
  exists b. split; [exact Hb |].
  rewrite decide_True by lia. by rewrite Hb.
Qed.

Lemma byte_to_Z_range (b : byte) : 0 ≤ byte_to_Z b < 256.
Proof.
  unfold byte_to_Z. pose proof (Byte.to_N_bounded b) as H. lia.
Qed.

(** ** Running [_EncodeInternal] and [Encode]

    Once the two deterministic stages have produced their values, the run
    is decided by the mask source alone. *)

Section runs.

Context {S : Type}.
Variable sizeof_Bits : Z.
Variable e : Encoder S.
Variable value : std_string.
Variables (bloom : Z) (masks : Z * Z).
Hypothesis Hbloom : MakeBloomFilter sizeof_Bits e value = Ret bloom.
Hypothesis Hmasks : GetPrrMasks sizeof_Bits e value = Ret masks.

Let prr : Z := prr_of sizeof_Bits bloom masks.1 masks.2.

Lemma _EncodeInternal_run (bloom_out prr_out irr_out : addr) (w : world S) :
  bloom_out ∈ dom (mem w) →
  prr_out ∈ dom (mem w) →
  irr_out ∈ dom (mem w) →
  let m1 := <[prr_out := Some prr]> (<[bloom_out := Some bloom]> (mem w)) in
  _EncodeInternal sizeof_Bits e value bloom_out prr_out irr_out w =
    match PMask (irr_rand_ e) (rand w) with
    | (None, s1) =>
        Ret (false, {| mem := m1; rand := s1;
                       trace := trace w ++ [EvPMask] |})
    | (Some p, s1) =>
        match QMask (irr_rand_ e) s1 with
        | (None, s2) =>
            Ret (false, {| mem := m1; rand := s2;
                           trace := (trace w ++ [EvPMask]) ++ [EvQMask] |})
        | (Some q, s2) =>
            Ret (true,
                 {| mem := <[irr_out :=
                               Some (irr_of sizeof_Bits prr
                                       (to_Bits sizeof_Bits p)
                                       (to_Bits sizeof_Bits q))]> m1;
                    rand := s2;
                    trace := (trace w ++ [EvPMask]) ++ [EvQMask] |})
        end
    end.
Proof.
  intros Hb Hp Hi m1.
  unfold _EncodeInternal, mbind, M_bind, lift, store, call_mask, mret, M_ret.
  rewrite Hbloom. simpl. rewrite decide_True by exact Hb.
  rewrite Hmasks. simpl.
  rewrite decide_True by (rewrite dom_insert_L; set_solver).
  simpl. fold prr. fold m1.
  destruct (PMask (irr_rand_ e) (rand w)) as [[p|] s1]; [| reflexivity].
  simpl.
  destruct (QMask (irr_rand_ e) s1) as [[q|] s2]; [| reflexivity].
  simpl.
  rewrite decide_True; [reflexivity |].
  subst m1. rewrite !dom_insert_L. set_solver.
Qed.

Lemma Encode_run (irr_out : addr) (w : world S) :
  irr_out ∈ dom (mem w) →
  Encode sizeof_Bits e value irr_out w =
    match PMask (irr_rand_ e) (rand w) with
    | (None, s1) =>
        Ret (false, {| mem := mem w; rand := s1;
                       trace := trace w ++ [EvPMask] |})
    | (Some p, s1) =>
        match QMask (irr_rand_ e) s1 with
        | (None, s2) =>
            Ret (false, {| mem := mem w; rand := s2;
                           trace := (trace w ++ [EvPMask]) ++ [EvQMask] |})
        | (Some q, s2) =>
            Ret (true,
                 {| mem := <[irr_out :=
                               Some (irr_of sizeof_Bits prr
                                       (to_Bits sizeof_Bits p)
                                       (to_Bits sizeof_Bits q))]> (mem w);
                    rand := s2;
                    trace := (trace w ++ [EvPMask]) ++ [EvQMask] |})
        end
    end.
Proof.
  intros Hi.
  unfold Encode, alloca, dealloc.
  unfold mbind at 1, M_bind at 1. cbv beta iota.
  set (l1 := fresh ({[irr_out]} ∪ dom (mem w))).
  unfold mbind at 1, M_bind at 1. cbv beta iota. simpl mem.
  set (l2 := fresh ({[irr_out]} ∪ dom (<[l1 := None]> (mem w)))).
  assert (Hl1 : l1 ∉ ({[irr_out]} ∪ dom (mem w) : gset addr))
    by apply is_fresh.
  assert (Hl2 : l2 ∉ ({[irr_out]} ∪ dom (<[l1 := None]> (mem w)) : gset addr))
    by apply is_fresh.
  rewrite dom_insert_L in Hl2.
  assert (Hl1m : mem w !! l1 = None) by (apply not_elem_of_dom; set_solver).
  assert (Hl2m : mem w !! l2 = None) by (apply not_elem_of_dom; set_solver).
  assert (Hl12 : l1 ≠ l2) by set_solver.
  assert (Hl1i : l1 ≠ irr_out) by set_solver.
  assert (Hl2i : l2 ≠ irr_out) by set_solver.
  unfold mbind at 1, M_bind at 1.
  rewrite _EncodeInternal_run; simpl mem; simpl rand; simpl trace;
    rewrite ?dom_insert_L; [| set_solver ..].
  assert (Hrestore : ∀ m' : gmap addr (option Z),
    (∀ k, k ≠ l1 → k ≠ l2 → m' !! k = mem w !! k) →
    delete l1 (delete l2 m') = mem w).
  { intros m' Hm'. apply map_eq. intros k.
    destruct (decide (k = l1)) as [-> | Hk1].
    { by rewrite lookup_delete_eq. }
    rewrite lookup_delete_ne by done.
    destruct (decide (k = l2)) as [-> | Hk2].
    { by rewrite lookup_delete_eq. }
    rewrite lookup_delete_ne by done. by apply Hm'. }
  assert (Hfail :
    delete l1 (delete l2
      (<[l2 := Some prr]> (<[l1 := Some bloom]>
         (<[l2 := None]> (<[l1 := None]> (mem w)))))) = mem w).
  { apply Hrestore. intros k Hk1 Hk2. by rewrite !lookup_insert_ne. }
  destruct (PMask (irr_rand_ e) (rand w)) as [[p|] s1].
  2: { unfold mbind, M_bind, mret, M_ret. simpl. by rewrite Hfail. }
  destruct (QMask (irr_rand_ e) s1) as [[q|] s2].
  2: { unfold mbind, M_bind, mret, M_ret. simpl. by rewrite Hfail. }
  unfold mbind, M_bind, mret, M_ret. simpl. do 3 f_equal.
  apply map_eq. intros k.
  destruct (decide (k = irr_out)) as [-> | Hki].
  { rewrite lookup_delete_ne, lookup_delete_ne by done.
    by rewrite !lookup_insert_eq. }
  rewrite (lookup_insert_ne (mem w)) by done.
  rewrite <- Hfail at 2.
  destruct (decide (k = l1)) as [-> | Hk1].
  { by rewrite !lookup_delete_eq. }
  rewrite !(lookup_delete_ne _ l1) by done.
  destruct (decide (k = l2)) as [-> | Hk2].
  { by rewrite !lookup_delete_eq. }
  rewrite !(lookup_delete_ne _ l2) by done.
  by rewrite (lookup_insert_ne _ irr_out) by done.
Qed.

End runs.

(** ** Bit-level facts *)

Lemma testbit_above (x k i : Z) :
  0 ≤ x < 2 ^ k → k ≤ i → Z.testbit x i = false.
Proof.
  intros Hx Hi.
  destruct (Z.eq_dec x 0) as [-> | Hne]; [apply Z.bits_0 |].
  apply Z.bits_above_log2; [lia |].
  assert (0 ≤ k).
  { destruct (Z.lt_ge_cases k 0) as [Hk | Hk]; [| exact Hk].
    rewrite Z.pow_neg_r in Hx by exact Hk. lia. }
  assert (Z.log2 x < k) by (apply Z.log2_lt_pow2; lia).
  lia.
Qed.

Lemma testbit_one (n : Z) : Z.testbit 1 n = bool_decide (n = 0).
Proof.
  destruct (Z.lt_trichotomy n 0) as [Hn | [-> | Hn]].
  - rewrite Z.testbit_neg_r by exact Hn.
    symmetry. apply bool_decide_eq_false_2. lia.
  - reflexivity.
  - rewrite Z.bits_above_log2 by (simpl; lia).
    symmetry. apply bool_decide_eq_false_2. lia.
Qed.

Lemma testbit_shiftl_bit (a b i : Z) :
  a = 0 ∨ a = 1 → 0 ≤ b → 0 ≤ i →
  Z.testbit (Z.shiftl a b) i = bool_decide (a = 1 ∧ i = b).
Proof.
  intros Ha Hb Hi. rewrite Z.shiftl_spec by exact Hi.
  destruct Ha as [-> | ->].
  - rewrite Z.bits_0. symmetry. apply bool_decide_eq_false_2. lia.
  - rewrite testbit_one. apply bool_decide_ext. lia.
Qed.

Lemma to_int_small (v : Z) : 0 ≤ v < 2 ^ 31 → to_int v = v.
Proof.
  intros Hv. unfold to_int.
  rewrite Z.mod_small; [lia |].
  change (2 ^ 32) with (2 ^ 31 + 2 ^ 31). lia.
Qed.

Lemma to_int_low_bits (v i : Z) :
  0 ≤ i < 32 → Z.testbit (to_int v) i = Z.testbit v i.
Proof.
  intros Hi.
  rewrite <- (Z.mod_pow2_bits_low (to_int v) 32 i) by lia.
  rewrite <- (Z.mod_pow2_bits_low v 32 i) by lia.
  f_equal. unfold to_int.
  rewrite Zminus_mod_idemp_l.
  f_equal. lia.
Qed.

Section bits.

Variable sizeof_Bits : Z.
Hypothesis sizeof_pos : 0 ≤ sizeof_Bits.

Local Abbreviation K := (sizeof_Bits * 8).

Lemma to_Bits_range (z : Z) : 0 ≤ to_Bits sizeof_Bits z < 2 ^ K.
Proof.
  unfold to_Bits, kMaxBits. apply Z.mod_pos_bound.
  apply Z.pow_pos_nonneg; lia.
Qed.

Lemma to_Bits_testbit (z i : Z) :
  Z.testbit (to_Bits sizeof_Bits z) i
  = bool_decide (0 ≤ i < K) && Z.testbit z i.
Proof.
  unfold to_Bits, kMaxBits.
  destruct (Z.lt_ge_cases i 0) as [Hneg | Hnn].
  { rewrite !Z.testbit_neg_r by exact Hneg. by rewrite andb_false_r. }
  destruct (Z.lt_ge_cases i K) as [Hlt | Hge].
  - rewrite Z.mod_pow2_bits_low by lia.
    by rewrite bool_decide_eq_true_2 by lia.
  - rewrite Z.mod_pow2_bits_high by lia.
    by rewrite bool_decide_eq_false_2 by lia.
Qed.

Lemma Bits_not_testbit (x i : Z) :
  0 ≤ i < K → Z.testbit (Bits_not sizeof_Bits x) i = negb (Z.testbit x i).
Proof.
  intros Hi. unfold Bits_not. rewrite to_Bits_testbit.
  rewrite bool_decide_eq_true_2 by exact Hi.
  simpl. apply Z.lnot_spec. lia.
Qed.

(** encoder.cc:195, bit by bit. *)
Lemma prr_of_testbit (bloom uniform f_mask i : Z) :
  0 ≤ i < K →
  Z.testbit (prr_of sizeof_Bits bloom uniform f_mask) i
  = if Z.testbit f_mask i then Z.testbit uniform i else Z.testbit bloom i.
Proof.
  intros Hi. unfold prr_of.
  rewrite Z.lor_spec, !Z.land_spec, Bits_not_testbit by exact Hi.
  destruct (Z.testbit f_mask i), (Z.testbit uniform i),
    (Z.testbit bloom i); reflexivity.
Qed.

(** encoder.cc:210, bit by bit. *)
Lemma irr_of_testbit (prr p_bits q_bits i : Z) :
  0 ≤ i < K →
  Z.testbit (irr_of sizeof_Bits prr p_bits q_bits) i
  = if Z.testbit prr i then Z.testbit q_bits i else Z.testbit p_bits i.
Proof.
  intros Hi. unfold irr_of.
  rewrite Z.lor_spec, !Z.land_spec, Bits_not_testbit by exact Hi.
  destruct (Z.testbit prr i), (Z.testbit q_bits i),
    (Z.testbit p_bits i); reflexivity.
Qed.

(** [x |= (a << b)] with [a] a single bit sets bit [b] and nothing else,
    as long as the shifted [int] is not sign-extended into a wider
    [Bits]. *)
Lemma Bits_or_int_shl (x a b : Z) :
  a = 0 ∨ a = 1 →
  0 ≤ x < 2 ^ K →
  0 ≤ b < K →
  b < 31 ∨ K ≤ 32 →
  ∃ s, int_shl a b = Ret s
       ∧ Bits_or_int sizeof_Bits x s = Z.lor x (Z.shiftl a b).
Proof.
  intros Ha Hx Hb Hw.
  assert (Hb32 : 0 ≤ b < 32) by lia.
  assert (Hpow : 0 < 2 ^ b < 2 ^ 32).
  { split; [apply Z.pow_pos_nonneg; lia |].
    apply Z.pow_lt_mono_r; lia. }
  exists (to_int (a * 2 ^ b)). split.
  { unfold int_shl. rewrite decide_True; [reflexivity |].
    destruct Ha as [-> | ->]; lia. }
  rewrite Z.shiftl_mul_pow2 by lia.
  apply Z.bits_inj'. intros i Hi.
  unfold Bits_or_int. rewrite to_Bits_testbit, !Z.lor_spec.
  assert (Hv : 0 ≤ a * 2 ^ b < 2 ^ K).
  { destruct Ha as [-> | ->]; [split; [lia | apply Z.pow_pos_nonneg; lia] |].
    rewrite Z.mul_1_l. split; [lia |]. apply Z.pow_lt_mono_r; lia. }
  destruct (Z.lt_ge_cases i K) as [Hlt | Hge].
  - rewrite bool_decide_eq_true_2 by lia. simpl. f_equal.
    destruct Hw as [Hb31 | HK].
    + rewrite to_int_small; [reflexivity |].
      destruct Ha as [-> | ->]; [split; [lia | apply Z.pow_pos_nonneg; lia] |].
      rewrite Z.mul_1_l. split; [lia |]. apply Z.pow_lt_mono_r; lia.
    + apply to_int_low_bits. lia.
  - rewrite bool_decide_eq_false_2 by lia. simpl.
    rewrite (testbit_above x K i), (testbit_above (a * 2 ^ b) K i) by lia.
    reflexivity.
Qed.

End bits.

(** ** Loops *)

Lemma for_loop_inv {A : Type} (P : Z → A → Prop) (body : Z → A → result A)
    (count : nat) (i0 : Z) (acc : A) :
  P i0 acc →
  (∀ i a, i0 ≤ i < i0 + Z.of_nat count → P i a →
          ∃ a', body i a = Ret a' ∧ P (i + 1) a') →
  ∃ r, for_loop count i0 body acc = Ret r ∧ P (i0 + Z.of_nat count) r.
Proof.
  revert i0 acc. induction count as [| n IH]; intros i0 acc Hinit Hstep.
  - exists acc. split; [reflexivity |].
    by replace (i0 + Z.of_nat 0) with i0 by lia.
  - destruct (Hstep i0 acc) as (a' & Hbody & Ha'); [lia | exact Hinit |].
    destruct (IH (i0 + 1) a' Ha') as (r & Hr & HP).
    { intros i a Hi. apply Hstep. lia. }
    exists r. split.
    + simpl. rewrite Hbody. exact Hr.
    + by replace (i0 + Z.of_nat (S n)) with (i0 + 1 + Z.of_nat n) by lia.
Qed.

(** ** The digest input (encoder.cc:120-133) *)

Lemma copy_rest (value : std_string) :
  ∀ (k : nat) (done junk : std_string),
    length done = (k + 4)%nat →
    length junk = length value →
    foldl (λ h '(i, b), <[(i + 4)%nat := b]> h) (done ++ junk)
          (imap (λ i b, ((k + i)%nat, b)) value)
    = done ++ value.
Proof.
  induction value as [| b value IH]; intros k done junk Hdone Hjunk.
  - destruct junk; [reflexivity | discriminate].
  - destruct junk as [| j junk]; [discriminate |].
    simpl.
    replace (k + 0 + 4)%nat with (length done + 0)%nat by lia.
    rewrite insert_app_r. simpl.
    rewrite (imap_ext _ (λ i b, ((S k + i)%nat, b))).
    2: { intros i x _. simpl. f_equal. lia. }
    rewrite (cons_middle b done junk), (cons_middle b done value).
    rewrite !app_assoc.
    apply IH.
    + rewrite length_app. simpl. lia.
    + simpl in Hjunk. lia.
Qed.

Lemma hash_input_of_eq (cohort : Z) (value : std_string) :
  hash_input_of cohort value
  = [x00; x00; x00; byte_of_Z (cohort mod 256)] ++ value.
Proof.
  unfold hash_input_of.
  change 255 with (Z.ones 8). rewrite Z.land_ones by lia.
  change (2 ^ 8) with 256.
  change (replicate (4 + length value) x00)
    with (x00 :: x00 :: x00 :: x00 :: replicate (length value) x00).
  cbn [list_insert].
  apply (copy_rest value 0 [x00; x00; x00; byte_of_Z (cohort mod 256)]
           (replicate (length value) x00)).
  - reflexivity.
  - apply length_replicate.
Qed.

(** ** The Bloom filter *)

Lemma bloom_spec_fold_testbit (nbits : Z) (l : list byte) (k : Z) :
  1 ≤ nbits → 0 ≤ k →
  Z.testbit
    (foldr (λ b acc, Z.lor (Z.shiftl 1 (byte_to_Z b mod nbits)) acc) 0 l) k
  = existsb (λ b, bool_decide (byte_to_Z b mod nbits = k)) l.
Proof.
  intros Hn Hk. induction l as [| b l IH]; simpl.
  - apply Z.bits_0.
  - rewrite Z.lor_spec, IH. f_equal.
    assert (0 ≤ byte_to_Z b mod nbits < nbits)
      by (apply Z.mod_pos_bound; lia).
    rewrite testbit_shiftl_bit by (auto; lia).
    apply bool_decide_ext. lia.
Qed.

Section bloom.

Context {S : Type}.
Variable sizeof_Bits : Z.
Variable e : Encoder S.
Variable value : std_string.

Hypothesis sizeof_pos : 0 ≤ sizeof_Bits.
Hypothesis nbits_range : 1 ≤ num_bits_ e ≤ sizeof_Bits * 8.
Hypothesis nhashes_le : num_hashes_ e ≤ 16.
(** The shifted [int] is never sign-extended into a wider [Bits]. *)
Hypothesis no_sign_extension : num_bits_ e < 32 ∨ sizeof_Bits * 8 ≤ 32.

Lemma MakeBloomFilter_correct :
  MakeBloomFilter sizeof_Bits e value
  = Ret (bloom_spec (num_bits_ e) (num_hashes_ e) (cohort_ e)
           (md5_func_ e) value).
Proof.
  unfold MakeBloomFilter, bloom_spec, for_int.
  rewrite hash_input_of_eq.
  set (digest := vec_to_list (md5_func_ e _)).
  assert (Hlen : length digest = 16%nat) by apply length_vec_to_list.
  set (n := Z.to_nat (num_hashes_ e)).
  assert (Hn : (n ≤ 16)%nat) by lia.
  pose (P := λ (i : Z) (bloom : Z),
    0 ≤ bloom < 2 ^ (sizeof_Bits * 8)
    ∧ ∀ k, 0 ≤ k →
        Z.testbit bloom k
        = existsb (λ b, bool_decide (byte_to_Z b mod num_bits_ e = k))
                  (take (Z.to_nat i) digest)).
  edestruct (for_loop_inv P) as (r & Hr & Hrange & Hbits);
    [| | rewrite Hr].
  - split; [split; [lia | apply Z.pow_pos_nonneg; lia] |].
    intros k Hk. simpl. apply Z.bits_0.
  - intros i bloom Hi [Hb Hbits].
    destruct (array_get_in_bounds (md5_func_ e
                ([x00; x00; x00; byte_of_Z (cohort_ e mod 256)] ++ value)) i)
      as (b & Hlook & Hget); [lia |].
    rewrite Hget. simpl.
    pose proof (byte_to_Z_range b) as Hbyte.
    unfold int_rem. rewrite decide_False by lia. simpl.
    rewrite Z.rem_mod_nonneg by lia.
    assert (Hm : 0 ≤ byte_to_Z b mod num_bits_ e < num_bits_ e)
      by (apply Z.mod_pos_bound; lia).
    destruct (Bits_or_int_shl sizeof_Bits sizeof_pos bloom 1
                (byte_to_Z b mod num_bits_ e))
      as (s & Hs & Hor); [auto | exact Hb | lia | lia |].
    rewrite Hs. simpl. eexists. split; [reflexivity |].
    split; [apply to_Bits_range; exact sizeof_pos |].
    intros k Hk. rewrite Hor, Z.lor_spec, Hbits by exact Hk.
    replace (Z.to_nat (i + 1)) with (Datatypes.S (Z.to_nat i)) by lia.
    rewrite (take_S_r _ _ b) by exact Hlook.
    rewrite existsb_app. simpl. rewrite orb_false_r. f_equal.
    rewrite testbit_shiftl_bit by (auto; lia).
    apply bool_decide_ext. lia.
  - f_equal. apply Z.bits_inj'. intros k Hk.
    rewrite Hbits by exact Hk.
    rewrite bloom_spec_fold_testbit by lia.
    replace (Z.to_nat (0 + Z.of_nat n)) with n by lia.
    reflexivity.
Qed.

End bloom.

(** Every bit of the filter of the design lies below [num_bits]. *)
Lemma bloom_spec_high_bits (nbits nhashes cohort : Z) (md5 : Md5Func)
    (value : std_string) (i : Z) :
  1 ≤ nbits → nbits ≤ i →
  Z.testbit (bloom_spec nbits nhashes cohort md5 value) i = false.
Proof.
  intros Hn Hi. unfold bloom_spec.
  rewrite bloom_spec_fold_testbit by lia.
  apply not_true_is_false. intros Hex.
  apply existsb_exists in Hex as (b & _ & Hb).
  apply bool_decide_eq_true in Hb.
  pose proof (Z.mod_pos_bound (byte_to_Z b) nbits). lia.
Qed.

(** ** The PRR masks *)

Lemma float_to_uint8_floor (f : Q) :
  (0 <= f)%Q → (f <= 1)%Q →
  float_to_uint8 (f * 128) = Ret (threshold_spec f)
  ∧ 0 ≤ threshold_spec f ≤ 128.
Proof.
  intros H0 H1. unfold threshold_spec.
  assert (Hlo : (0 <= f * 128)%Q).
  { destruct f as [n dn]. unfold Qle in *. simpl in *. lia. }
  assert (Hhi : (f * 128 <= 128)%Q).
  { destruct f as [n dn]. unfold Qle in *. simpl in *. lia. }
  assert (Hrange : 0 ≤ Qfloor (f * 128) ≤ 128).
  { split.
    - change 0 with (Qfloor 0). by apply Qfloor_resp_le.
    - change 128 with (Qfloor 128) at 2. by apply Qfloor_resp_le. }
  split; [| exact Hrange].
  unfold float_to_uint8.
  assert (Hq : Z.quot (Qnum (f * 128)) (Z.pos (Qden (f * 128)))
               = Qfloor (f * 128)).
  { destruct (f * 128)%Q as [n d] eqn:E. simpl.
    apply Z.quot_div_nonneg; [| lia].
    unfold Qle in Hlo. simpl in Hlo. lia. }
  rewrite Hq. rewrite decide_True by lia. reflexivity.
Qed.

Lemma land_1_cases (x : Z) : Z.land x 1 = 0 ∨ Z.land x 1 = 1.
Proof.
  assert (H : Z.land x 1 = x mod 2).
  { change 1 with (Z.ones 1). rewrite Z.land_ones by lia. reflexivity. }
  rewrite H. pose proof (Z.mod_pos_bound x 2). lia.
Qed.

Section prr_masks.

Context {S : Type}.
Variable sizeof_Bits : Z.
Variable e : Encoder S.
Variable value : std_string.

Hypothesis sizeof_pos : 0 ≤ sizeof_Bits.
Hypothesis nbits_fit : num_bits_ e ≤ sizeof_Bits * 8.
Hypothesis nbits_le_32 : num_bits_ e ≤ 32.
Hypothesis no_sign_extension : num_bits_ e < 32 ∨ sizeof_Bits * 8 ≤ 32.
Hypothesis prob_f_lo : (0 <= prob_f_ e)%Q.
Hypothesis prob_f_hi : (prob_f_ e <= 1)%Q.

Let d : Sha256Digest := hmac_func_ e (client_secret_ e) value.
Let threshold : Z := threshold_spec (prob_f_ e).

Lemma GetPrrMasks_correct :
  ∃ uniform f_mask,
    GetPrrMasks sizeof_Bits e value = Ret (uniform, f_mask)
    ∧ 0 ≤ uniform ∧ 0 ≤ f_mask
    ∧ ∀ i, 0 ≤ i →
        Z.testbit uniform i
        = bool_decide (i < num_bits_ e ∧ Z.land (sha_byte d i) 1 = 1)
        ∧ Z.testbit f_mask i
          = bool_decide (i < num_bits_ e
                         ∧ Z.shiftr (sha_byte d i) 1 < threshold).
Proof.
  unfold GetPrrMasks, for_int.
  rewrite bool_decide_eq_true_2 by exact nbits_le_32. simpl.
  destruct (float_to_uint8_floor (prob_f_ e) prob_f_lo prob_f_hi)
    as [Hcast Hthr].
  rewrite Hcast. simpl. fold d. fold threshold.
  pose (P := λ (i : Z) (uf : Z * Z),
    (0 ≤ uf.1 < 2 ^ (sizeof_Bits * 8) ∧ 0 ≤ uf.2 < 2 ^ (sizeof_Bits * 8))
    ∧ ∀ k, 0 ≤ k →
        Z.testbit uf.1 k
        = bool_decide (k < i ∧ Z.land (sha_byte d k) 1 = 1)
        ∧ Z.testbit uf.2 k
          = bool_decide (k < i ∧ Z.shiftr (sha_byte d k) 1 < threshold)).
  assert (Hpow : 0 < 2 ^ (sizeof_Bits * 8)) by (apply Z.pow_pos_nonneg; lia).
  edestruct (for_loop_inv P) as ([u f] & Hr & Hrange & Hbits);
    [| | rewrite Hr].
  - split; [simpl; lia |]. intros k Hk. simpl. rewrite Z.bits_0.
    split; symmetry; apply bool_decide_eq_false_2; lia.
  - intros i [u f] Hi [[Hu Hf] Hbits]. simpl in Hu, Hf, Hbits.
    destruct (array_get_in_bounds d i) as (b & Hlook & Hget); [lia |].
    rewrite Hget. simpl.
    assert (Hbyte : sha_byte d i = byte_to_Z b)
      by (unfold sha_byte; by rewrite Hlook).
    destruct (Bits_or_int_shl sizeof_Bits sizeof_pos u
                (Z.land (byte_to_Z b) 1) i)
      as (s & Hs & Hor); [apply land_1_cases | exact Hu | lia | lia |].
    rewrite Hs. simpl.
    set (noise_bit :=
           if decide (Z.shiftr (byte_to_Z b) 1 < threshold) then 1 else 0).
    assert (Hnoise : noise_bit = 0 ∨ noise_bit = 1)
      by (subst noise_bit; case_decide; auto).
    destruct (Bits_or_int_shl sizeof_Bits sizeof_pos f noise_bit i)
      as (s' & Hs' & Hor'); [exact Hnoise | exact Hf | lia | lia |].
    rewrite Hs'. simpl. eexists. split; [reflexivity |].
    split; [split; apply to_Bits_range; exact sizeof_pos |].
    intros k Hk. simpl. rewrite Hor, Hor', !Z.lor_spec.
    destruct (Hbits k Hk) as [-> ->].
    rewrite !testbit_shiftl_bit by (auto using land_1_cases; lia).
    split.
    + destruct (decide (k = i)) as [-> | Hne].
      * rewrite Hbyte.
        rewrite (bool_decide_eq_false_2 (i < i ∧ _)) by lia. simpl.
        apply bool_decide_ext. lia.
      * rewrite (bool_decide_eq_false_2 (_ ∧ k = i)) by lia.
        rewrite orb_false_r. apply bool_decide_ext. lia.
    + destruct (decide (k = i)) as [-> | Hne].
      * rewrite Hbyte.
        rewrite (bool_decide_eq_false_2 (i < i ∧ _)) by lia. simpl.
        apply bool_decide_ext. subst noise_bit. case_decide; lia.
      * rewrite (bool_decide_eq_false_2 (_ ∧ k = i)) by lia.
        rewrite orb_false_r. apply bool_decide_ext. lia.
  - exists u, f. simpl in Hrange, Hbits.
    split; [reflexivity |]. split; [lia |]. split; [lia |].
    intros i Hi. destruct (Hbits i Hi) as [-> ->].
    split; apply bool_decide_ext; lia.
Qed.

End prr_masks.

(** * The claims *)

(** ** Validation at construction *)

(** C5: every constructor validates the parameters.  The six-argument
    constructor does (lemma [IsValid_Encoder_new]); the constructor from
    [(Params, Deps)] assigns [is_valid_] nowhere, so that for all parameters
    and dependencies, among them [num_bits = 7] and [num_bits = 1000] with
    64-bit [Bits], [IsValid] reads a member without a value and does not
    return [false]. *)
Theorem Encoder_of_deps_skips_validation :
  ∀ {S : Type} (params : Params) (deps : Deps.t S),
    is_valid_ (Encoder_of_deps params deps) = None
    ∧ IsValid (Encoder_of_deps params deps) = Undefined
    ∧ IsValid (Encoder_of_deps
                 {| num_bits := 7; num_hashes := 2; prob_f := 0 |} deps)
      ≠ Ret false
    ∧ IsValid (Encoder_of_deps
                 {| num_bits := 1000; num_hashes := 2; prob_f := 0 |} deps)
      ≠ Ret false.
Proof.
  intros S params deps. repeat split; discriminate.
Qed.

(** C6: a valid encoder has [num_bits <= 32], so that the assertion of
    [GetPrrMasks] holds.  With [Bits] of 8 bytes the constructor accepts
    [num_bits = 40], and every call of [GetPrrMasks] on that encoder stops at
    the assertion; so does [Encode]. *)
Theorem valid_encoder_fails_num_bits_assertion :
  ∀ {S : Type} (nhashes : Z) (f : Q) (cohort : Z) (md5 : Md5Func)
    (secret : std_string) (hmac : HmacFunc) (irr_rand : IrrRandInterface S)
    (value : std_string),
    let e := Encoder_new 8
               {| num_bits := 40; num_hashes := nhashes; prob_f := f |}
               cohort md5 secret hmac irr_rand in
    IsValid e = Ret true
    ∧ ¬ num_bits_ e ≤ 32
    ∧ GetPrrMasks 8 e value = AssertFail
    ∧ Encode 8 (stub_encoder 8 40 2 0 x03 x05 x00 (Some 255) (Some 0))
        [x78] 1%positive caller_world = AssertFail.
Proof.
  intros S nhashes f cohort md5 secret hmac irr_rand value e.
  split; [reflexivity |]. split; [simpl; lia |].
  split; [reflexivity | vm_compute; reflexivity].
Qed.

(** C9: a valid encoder never takes a remainder by zero.  The constructor
    accepts [num_bits = 0] whatever the size of [Bits], and with one hash
    probe or more the first iteration of [MakeBloomFilter] computes
    [md5[0] % 0]. *)
Theorem valid_encoder_remainder_by_zero :
  ∀ {S : Type} (sizeof_Bits : positive) (more_hashes : nat) (f : Q)
    (cohort : Z) (md5 : Md5Func) (secret : std_string) (hmac : HmacFunc)
    (irr_rand : IrrRandInterface S) (value : std_string),
    let e := Encoder_new (Z.pos sizeof_Bits)
               {| num_bits := 0;
                  num_hashes := Z.of_nat (Datatypes.S more_hashes);
                  prob_f := f |}
               cohort md5 secret hmac irr_rand in
    IsValid e = Ret true
    ∧ (∀ byte, int_rem byte (num_bits_ e) = Undefined)
    ∧ MakeBloomFilter (Z.pos sizeof_Bits) e value = Undefined.
Proof.
  intros S sizeof_Bits more_hashes f cohort md5 secret hmac irr_rand value e.
  split; [| split].
  - subst e. rewrite IsValid_Encoder_new. cbn [num_bits].
    by rewrite bool_decide_eq_true_2 by (split; [lia | reflexivity]).
  - intros byte. reflexivity.
  - unfold MakeBloomFilter, for_int.
    change (num_hashes_ e) with (Z.of_nat (Datatypes.S more_hashes)).
    rewrite Nat2Z.id. cbn [for_loop].
    destruct (array_get_in_bounds
                (md5_func_ e (hash_input_of (cohort_ e) value)) 0)
      as (b & _ & ->); [lia |].
    reflexivity.
Qed.

(** C4: on a valid encoder [Encode] returns [false] exactly when a mask draw
    fails and [true] otherwise (lemma [Encode_run], once both deterministic
    stages have returned).  On the valid encoder with [num_bits = 0] the
    Bloom filter stage takes a remainder by zero, and [Encode] returns
    neither [true] nor [false], whatever the mask source answers. *)
Theorem valid_encoder_Encode_no_result :
  ∀ {S : Type} (sizeof_Bits : positive) (more_hashes : nat) (f : Q)
    (cohort : Z) (md5 : Md5Func) (secret : std_string) (hmac : HmacFunc)
    (irr_rand : IrrRandInterface S) (value : std_string) (irr_out : addr)
    (w : world S),
    let e := Encoder_new (Z.pos sizeof_Bits)
               {| num_bits := 0;
                  num_hashes := Z.of_nat (Datatypes.S more_hashes);
                  prob_f := f |}
               cohort md5 secret hmac irr_rand in
    IsValid e = Ret true
    ∧ Encode (Z.pos sizeof_Bits) e value irr_out w = Undefined
    ∧ Encode 8 (stub_encoder 8 0 2 0 x03 x05 x00 (Some 255) (Some 0))
        [x78] 1%positive caller_world = Undefined.
Proof.
  intros S sizeof_Bits more_hashes f cohort md5 secret hmac irr_rand value
    irr_out w e.
  split; [| split].
  - subst e. rewrite IsValid_Encoder_new. cbn [num_bits].
    by rewrite bool_decide_eq_true_2 by (split; [lia | reflexivity]).
  - assert (Hb : MakeBloomFilter (Z.pos sizeof_Bits) e value = Undefined).
    { unfold MakeBloomFilter, for_int.
      change (num_hashes_ e) with (Z.of_nat (Datatypes.S more_hashes)).
      rewrite Nat2Z.id. cbn [for_loop].
      destruct (array_get_in_bounds
                  (md5_func_ e (hash_input_of (cohort_ e) value)) 0)
        as (b & _ & ->); [lia |].
      reflexivity. }
    unfold Encode, _EncodeInternal, alloca, mbind, M_bind, lift.
    rewrite Hb. reflexivity.
  - vm_compute. reflexivity.
Qed.

(** ** Bits at and above [num_bits] *)

Lemma prr_of_clean (sizeof_Bits bloom uniform f_mask i : Z) :
  Z.testbit bloom i = false → Z.testbit uniform i = false →
  Z.testbit (prr_of sizeof_Bits bloom uniform f_mask) i = false.
Proof.
  intros Hb Hu. unfold prr_of.
  by rewrite Z.lor_spec, !Z.land_spec, Hb, Hu.
Qed.

Lemma irr_of_clean (sizeof_Bits prr p_bits q_bits i : Z) :
  Z.testbit p_bits i = false → Z.testbit q_bits i = false →
  Z.testbit (irr_of sizeof_Bits prr p_bits q_bits) i = false.
Proof.
  intros Hp Hq. unfold irr_of.
  by rewrite Z.lor_spec, !Z.land_spec, Hp, Hq.
Qed.

(** As long as no shifted [int] is sign-extended (that is, [num_bits < 32],
    or [Bits] has at most 32 bits), the Bloom filter, the two masks and the
    PRR have no bit at or above [num_bits]; the report has none either when
    the two drawn masks have none. *)
Lemma pipeline_high_bits_zero {S : Type} (sizeof_Bits : Z) (e : Encoder S)
    (value : std_string) :
  0 ≤ sizeof_Bits →
  1 ≤ num_bits_ e ≤ sizeof_Bits * 8 →
  num_bits_ e ≤ 32 →
  num_hashes_ e ≤ 16 →
  num_bits_ e < 32 ∨ sizeof_Bits * 8 ≤ 32 →
  (0 <= prob_f_ e)%Q → (prob_f_ e <= 1)%Q →
  ∃ bloom uniform f_mask,
    MakeBloomFilter sizeof_Bits e value = Ret bloom
    ∧ GetPrrMasks sizeof_Bits e value = Ret (uniform, f_mask)
    ∧ ∀ i, num_bits_ e ≤ i →
        Z.testbit bloom i = false
        ∧ Z.testbit uniform i = false
        ∧ Z.testbit f_mask i = false
        ∧ Z.testbit (prr_of sizeof_Bits bloom uniform f_mask) i = false
        ∧ ∀ p_bits q_bits,
            Z.testbit p_bits i = false → Z.testbit q_bits i = false →
            Z.testbit (irr_of sizeof_Bits
                         (prr_of sizeof_Bits bloom uniform f_mask)
                         p_bits q_bits) i = false.
Proof.
  intros Hsz Hnb H32 Hnh Hext Hlo Hhi.
  destruct (GetPrrMasks_correct sizeof_Bits e value)
    as (u & f & Hmasks & Hu & Hf & Hbits); try done; [lia |].
  eexists _, u, f.
  split; [by apply MakeBloomFilter_correct |].
  split; [exact Hmasks |].
  intros i Hi.
  assert (Hbl : Z.testbit (bloom_spec (num_bits_ e) (num_hashes_ e)
                  (cohort_ e) (md5_func_ e) value) i = false)
    by (apply bloom_spec_high_bits; lia).
  destruct (Hbits i) as [Hui Hfi]; [lia |].
  rewrite bool_decide_eq_false_2 in Hui by lia.
  rewrite bool_decide_eq_false_2 in Hfi by lia.
  repeat split; try done.
  - by apply prr_of_clean.
  - intros p q Hp Hq. by apply irr_of_clean.
Qed.

(** ** The example of the design

    8 bits, 2 hashes, [prob_f = 0], cohort 0, a digest that starts with the
    bytes 3 and 5, and a mask source that answers [0xFF] and [0x00]. *)

Example design_example_bloom :
  MakeBloomFilter 8 (stub_encoder 8 8 2 0 x03 x05 x00 None None) [x78]
  = Ret 40.
Proof.
  rewrite MakeBloomFilter_correct by (simpl; lia). reflexivity.
Qed.

Example design_example_masks (h : byte) :
  GetPrrMasks 8 (stub_encoder 8 8 2 0 x03 x05 h None None) [x78]
  = Ret (Z.land (byte_to_Z h) 1 * 255, 0).
Proof. destruct h; reflexivity. Qed.

Example design_example_report :
  ∃ w', Encode 8 (stub_encoder 8 8 2 0 x03 x05 x00 (Some 255) (Some 0))
          [x78] 1%positive caller_world = Ret (true, w')
        ∧ mem w' !! 1%positive = Some (Some 215)
        ∧ trace w' = [EvPMask; EvQMask].
Proof. eexists. vm_compute. repeat split; reflexivity. Qed.

(** With [Bits] of 4 bytes the whole range of [num_bits] is covered: bit 31
    is set and nothing else. *)
Example bloom_bit_31_on_4_bytes :
  MakeBloomFilter 4 (stub_encoder 4 32 1 0 x1f x00 x00 None None) [x78]
  = Ret (2 ^ 31).
Proof.
  rewrite MakeBloomFilter_correct by (simpl; lia). reflexivity.
Qed.

(** ** The Bloom filter and the masks at 32 bits *)

(** C1: on a valid encoder with [num_bits >= 1], [MakeBloomFilter] returns
    the OR of the one-bit vectors [1 << (digest[i] mod num_bits)].  It does
    while the shifted [int] is not sign-extended (lemma
    [MakeBloomFilter_correct]), and so in the example of the design with 8
    bits.  With [Bits] of 8 bytes, [num_bits = 32] and a first digest byte
    31, the code returns [0xFFFFFFFF80000000] where the design has
    [0x80000000]; with [num_bits = 40] and a first digest byte 32 the shift
    count is 32 and the shift is undefined. *)
Theorem MakeBloomFilter_bit_31_sign_extended :
  let e := stub_encoder 8 32 1 0 x1f x00 x00 None None in
  let e' := stub_encoder 8 40 1 0 x20 x00 x00 None None in
  IsValid e = Ret true
  ∧ bloom_spec (num_bits_ e) (num_hashes_ e) (cohort_ e) (md5_func_ e) [x78]
    = 2 ^ 31
  ∧ MakeBloomFilter 8 e [x78] = Ret (2 ^ 64 - 2 ^ 31)
  ∧ IsValid e' = Ret true
  ∧ MakeBloomFilter 8 e' [x78] = Undefined
  ∧ MakeBloomFilter 8 (stub_encoder 8 8 2 0 x03 x05 x00 None None) [x78]
    = Ret 40.
Proof. vm_compute. repeat split; reflexivity. Qed.

(** C2: on a valid encoder with [num_bits <= 32], bit [i] of [uniform] is
    the low bit of digest byte [i], bit [i] of [f_mask] says whether the
    other seven bits are below the threshold, and neither mask has another
    bit.  It is so while no shifted [int] is sign-extended (lemma
    [GetPrrMasks_correct]).  With [Bits] of 8 bytes, [num_bits = 32] and a
    digest whose bytes are all 1, both masks come out as [2^64 - 1]: the
    bits 32 to 63 are set. *)
Theorem GetPrrMasks_bit_31_sign_extended :
  let e := stub_encoder 8 32 1 1 x03 x05 x01 None None in
  IsValid e = Ret true
  ∧ num_bits_ e ≤ 32
  ∧ GetPrrMasks 8 e [x78] = Ret (2 ^ 64 - 1, 2 ^ 64 - 1)
  ∧ Z.testbit (2 ^ 64 - 1) 32 = true.
Proof. vm_compute. repeat split; (reflexivity || discriminate). Qed.

(** C7: on a valid encoder with [1 <= num_bits <= 32] no vector of the
    pipeline has a bit at or above [num_bits].  It is so while no shifted
    [int] is sign-extended (lemma [pipeline_high_bits_zero]); the report
    never has such a bit when the drawn masks have none (lemma
    [irr_of_clean]).  With [Bits] of 8 bytes and [num_bits = 32], bit 32 is
    set in the Bloom filter, in both masks and in the PRR. *)
Theorem high_bits_set_at_32_bits :
  let e := stub_encoder 8 32 1 1 x1f x00 x01 (Some 0) (Some 0) in
  IsValid e = Ret true
  ∧ 1 ≤ num_bits_ e ≤ 32
  ∧ ∃ bloom uniform f_mask,
      MakeBloomFilter 8 e [x78] = Ret bloom
      ∧ GetPrrMasks 8 e [x78] = Ret (uniform, f_mask)
      ∧ Z.testbit bloom 32 = true
      ∧ Z.testbit uniform 32 = true
      ∧ Z.testbit f_mask 32 = true
      ∧ Z.testbit (prr_of 8 bloom uniform f_mask) 32 = true.
Proof.
  split; [reflexivity |]. split; [simpl; lia |].
  exists (2 ^ 64 - 2 ^ 31), (2 ^ 64 - 1), (2 ^ 64 - 1).
  vm_compute. repeat split; reflexivity.
Qed.

(** ** The report *)

(** C3: with both masks drawn, the report that [_EncodeInternal] (and so
    [Encode]) stores is [(p_bits & ~prr) | (q_bits & prr)]: at each position
    of [Bits] it has the bit of [q_bits] where [prr] is 1 and the bit of
    [p_bits] where [prr] is 0; the selection holds for every [prr] and every
    pair of masks. *)
Theorem report_takes_p_or_q_by_prr {S : Type} (sizeof_Bits : Z)
    (e : Encoder S) (value : std_string) (bloom_out prr_out irr_out : addr)
    (w : world S) (bloom : Z) (masks : Z * Z) (p q : Z) (s1 s2 : S) :
  0 ≤ sizeof_Bits →
  MakeBloomFilter sizeof_Bits e value = Ret bloom →
  GetPrrMasks sizeof_Bits e value = Ret masks →
  bloom_out ∈ dom (mem w) →
  prr_out ∈ dom (mem w) →
  irr_out ∈ dom (mem w) →
  PMask (irr_rand_ e) (rand w) = (Some p, s1) →
  QMask (irr_rand_ e) s1 = (Some q, s2) →
  let prr := prr_of sizeof_Bits bloom masks.1 masks.2 in
  let p_bits := to_Bits sizeof_Bits p in
  let q_bits := to_Bits sizeof_Bits q in
  let irr :=
    Z.lor (Z.land p_bits (Bits_not sizeof_Bits prr)) (Z.land q_bits prr) in
  (∃ w', _EncodeInternal sizeof_Bits e value bloom_out prr_out irr_out w
         = Ret (true, w')
         ∧ mem w' !! irr_out = Some (Some irr))
  ∧ (∃ w', Encode sizeof_Bits e value irr_out w = Ret (true, w')
           ∧ mem w' !! irr_out = Some (Some irr))
  ∧ (∀ i, 0 ≤ i < sizeof_Bits * 8 →
          Z.testbit irr i
          = if Z.testbit prr i then Z.testbit q_bits i
            else Z.testbit p_bits i)
  ∧ (∀ prr' p' q' i, 0 ≤ i < sizeof_Bits * 8 →
          Z.testbit (irr_of sizeof_Bits prr' p' q') i
          = if Z.testbit prr' i then Z.testbit q' i else Z.testbit p' i).
Proof.
  intros Hsz Hbloom Hmasks Hb Hp Hi HP HQ prr p_bits q_bits irr.
  split; [| split; [| split]].
  - rewrite (_EncodeInternal_run sizeof_Bits e value bloom masks)
      by assumption.
    rewrite HP, HQ. eexists. split; [reflexivity |].
    simpl. apply lookup_insert_eq.
  - rewrite (Encode_run sizeof_Bits e value bloom masks) by assumption.
    rewrite HP, HQ. eexists. split; [reflexivity |].
    simpl. apply lookup_insert_eq.
  - intros i Hi'. by apply (irr_of_testbit sizeof_Bits Hsz prr p_bits q_bits).
  - intros prr' p' q' i Hi'. by apply irr_of_testbit.
Qed.

Lemma report_takes_p_or_q_by_prr_witness :
  let e := stub_encoder 8 8 2 0 x03 x05 x00 (Some 255) (Some 0) in
  (0 ≤ 8
   ∧ MakeBloomFilter 8 e [x78] = Ret 40
   ∧ GetPrrMasks 8 e [x78] = Ret (0, 0)
   ∧ 2%positive ∈ dom (mem caller_world)
   ∧ 3%positive ∈ dom (mem caller_world)
   ∧ 1%positive ∈ dom (mem caller_world)
   ∧ PMask (irr_rand_ e) (rand caller_world) = (Some 255, ())
   ∧ QMask (irr_rand_ e) () = (Some 0, ()))
  ∧ ∃ w', Encode 8 e [x78] 1%positive caller_world = Ret (true, w')
          ∧ mem w' !! 1%positive = Some (Some 215).
Proof.
  intros e.
  assert (H0 : 0 ≤ 8) by lia.
  assert (H1 : MakeBloomFilter 8 e [x78] = Ret 40) by reflexivity.
  assert (H2 : GetPrrMasks 8 e [x78] = Ret (0, 0)) by reflexivity.
  assert (H3 : 2%positive ∈ dom (mem caller_world))
    by (apply elem_of_dom; eexists; reflexivity).
  assert (H4 : 3%positive ∈ dom (mem caller_world))
    by (apply elem_of_dom; eexists; reflexivity).
  assert (H5 : 1%positive ∈ dom (mem caller_world))
    by (apply elem_of_dom; eexists; reflexivity).
  assert (H6 : PMask (irr_rand_ e) (rand caller_world) = (Some 255, ()))
    by reflexivity.
  assert (H7 : QMask (irr_rand_ e) () = (Some 0, ())) by reflexivity.
  split; [repeat split; assumption |].
  exact (proj1 (proj2 (report_takes_p_or_q_by_prr 8 e [x78]
                         2%positive 3%positive 1%positive caller_world
                         40 (0, 0) 255 0 () () H0 H1 H2 H3 H4 H5 H6 H7))).
Defined.

(** ** Writes through [irr_out] *)

(** C10, as it stands: a call of [_EncodeInternal] in which a mask draw
    fails leaves the caller's report cell unchanged.  It does not when
    [irr_out] is also passed as [prr_out]: the cell holds 12345 before the
    call, [PMask] fails, the call returns [false], and the cell holds the
    PRR 40, stored through [prr_out] before the draw. *)
Lemma aliased_report_cell_overwritten_on_failed_draw :
  let e := stub_encoder 8 8 2 0 x03 x05 x00 None None in
  let w := {| mem := {[ 1%positive := Some 12345; 2%positive := None ]};
              rand := (); trace := [] |} in
  1%positive ∈ dom (mem w)
  ∧ 2%positive ∈ dom (mem w)
  ∧ mask_draw_fails (irr_rand_ e) (rand w)
  ∧ ∃ w', _EncodeInternal 8 e [x78] 2%positive 1%positive 1%positive w
          = Ret (false, w')
          ∧ mem w !! 1%positive = Some (Some 12345)
          ∧ mem w' !! 1%positive = Some (Some 40)
          ∧ mem w' !! 1%positive ≠ mem w !! 1%positive.
Proof.
  intros e w.
  split; [apply elem_of_dom; eexists; reflexivity |].
  split; [apply elem_of_dom; eexists; reflexivity |].
  split; [by left |].
  eexists. split; [vm_compute; reflexivity |].
  split; [reflexivity |]. split; [reflexivity | discriminate].
Qed.

(** C10, amended: [Encode] stores through [irr_out] exactly when it returns
    [true].  When a mask draw fails it returns [false] and the caller's
    memory is what it was; when it returns [true] the only change is the cell
    of [irr_out].  [_EncodeInternal] has stored through [bloom_out] and
    [prr_out] in both cases, so that on a failed draw it leaves the cell of
    [irr_out] unchanged when [irr_out] is neither [bloom_out] nor
    [prr_out]. *)
Theorem irr_out_assigned_iff_true {S : Type} (sizeof_Bits : Z)
    (e : Encoder S) (value : std_string) (irr_out : addr) (w : world S)
    (bloom : Z) (masks : Z * Z) :
  MakeBloomFilter sizeof_Bits e value = Ret bloom →
  GetPrrMasks sizeof_Bits e value = Ret masks →
  irr_out ∈ dom (mem w) →
  let prr := prr_of sizeof_Bits bloom masks.1 masks.2 in
  (∃ ok w',
     Encode sizeof_Bits e value irr_out w = Ret (ok, w')
     ∧ (ok = false ↔ mask_draw_fails (irr_rand_ e) (rand w))
     ∧ (ok = false → mem w' = mem w)
     ∧ (ok = true →
        ∃ irr, mem w' = <[irr_out := Some irr]> (mem w)))
  ∧ ∀ bloom_out prr_out,
      bloom_out ∈ dom (mem w) → prr_out ∈ dom (mem w) →
      let m1 := <[prr_out := Some prr]> (<[bloom_out := Some bloom]> (mem w)) in
      ∃ ok w',
        _EncodeInternal sizeof_Bits e value bloom_out prr_out irr_out w
        = Ret (ok, w')
        ∧ (ok = false ↔ mask_draw_fails (irr_rand_ e) (rand w))
        ∧ (ok = false → mem w' = m1)
        ∧ (ok = true → ∃ irr, mem w' = <[irr_out := Some irr]> m1)
        ∧ (ok = true → ∃ irr, mem w' !! irr_out = Some (Some irr))
        ∧ (irr_out ≠ bloom_out → irr_out ≠ prr_out → ok = false →
           mem w' !! irr_out = mem w !! irr_out)
        ∧ mem w' !! prr_out
          = (if decide (ok = true ∧ prr_out = irr_out)
             then mem w' !! irr_out else Some (Some prr)).
Proof.
  intros Hbloom Hmasks Hi prr.
  assert (Hfails : ∀ ok : bool,
    ok = match PMask (irr_rand_ e) (rand w) with
         | (None, _) => false
         | (Some _, s1) =>
             match QMask (irr_rand_ e) s1 with
             | (None, _) => false
             | (Some _, _) => true
             end
         end →
    ok = false ↔ mask_draw_fails (irr_rand_ e) (rand w)).
  { intros ok ->. unfold mask_draw_fails.
    destruct (PMask (irr_rand_ e) (rand w)) as [[p|] s1]; simpl.
    - destruct (QMask (irr_rand_ e) s1) as [[q|] s2]; simpl.
      + split; [discriminate |].
        intros [? | [_ ?]]; discriminate.
      + split; [| reflexivity]. intros _. right. split; [by eexists | done].
    - split; [| reflexivity]. intros _. by left. }
  split.
  - rewrite (Encode_run sizeof_Bits e value bloom masks) by assumption.
    specialize (Hfails).
    destruct (PMask (irr_rand_ e) (rand w)) as [[p|] s1].
    + destruct (QMask (irr_rand_ e) s1) as [[q|] s2].
      * eexists _, _. split; [reflexivity |].
        split; [by apply Hfails |].
        split; [discriminate |]. intros _. simpl. by eexists.
      * eexists _, _. split; [reflexivity |].
        split; [by apply Hfails |].
        split; [reflexivity | discriminate].
    + eexists _, _. split; [reflexivity |].
      split; [by apply Hfails |].
      split; [reflexivity | discriminate].
  - intros bloom_out prr_out Hb Hp m1.
    rewrite (_EncodeInternal_run sizeof_Bits e value bloom masks)
      by assumption.
    assert (Hcell : irr_out ≠ bloom_out → irr_out ≠ prr_out →
                    m1 !! irr_out = mem w !! irr_out).
    { intros Hib Hip. subst m1. by rewrite !lookup_insert_ne. }
    assert (Hprr : m1 !! prr_out = Some (Some prr))
      by (subst m1; apply lookup_insert_eq).
    destruct (PMask (irr_rand_ e) (rand w)) as [[p|] s1].
    + destruct (QMask (irr_rand_ e) s1) as [[q|] s2].
      * eexists _, _. split; [reflexivity |].
        split; [by apply Hfails |].
        split; [discriminate |].
        split; [intros _; simpl; by eexists |].
        split; [intros _; simpl; eexists; apply lookup_insert_eq |].
        split; [discriminate |].
        case_decide as Hd; simpl.
        -- destruct Hd as [_ ->]. reflexivity.
        -- rewrite lookup_insert_ne; [exact Hprr |].
           intros Heq. apply Hd. by split.
      * eexists _, _. split; [reflexivity |].
        split; [by apply Hfails |].
        split; [reflexivity |]. split; [discriminate |].
        split; [discriminate |].
        split; [intros Hib Hip _; simpl; by apply Hcell |].
        case_decide as Hd; simpl; [by destruct Hd | exact Hprr].
    + eexists _, _. split; [reflexivity |].
      split; [by apply Hfails |].
      split; [reflexivity |]. split; [discriminate |].
      split; [discriminate |].
      split; [intros Hib Hip _; simpl; by apply Hcell |].
      case_decide as Hd; simpl; [by destruct Hd | exact Hprr].
Qed.

Lemma irr_out_assigned_iff_true_witness :
  let e := stub_encoder 8 8 2 0 x03 x05 x00 (Some 255) None in
  (MakeBloomFilter 8 e [x78] = Ret 40
   ∧ GetPrrMasks 8 e [x78] = Ret (0, 0)
   ∧ 1%positive ∈ dom (mem caller_world))
  ∧ (∃ ok w',
       Encode 8 e [x78] 1%positive caller_world = Ret (ok, w')
       ∧ (ok = false ↔ mask_draw_fails (irr_rand_ e) (rand caller_world))
       ∧ (ok = false → mem w' = mem caller_world)
       ∧ (ok = true →
          ∃ irr, mem w' = <[1%positive := Some irr]> (mem caller_world)))
  ∧ ∃ ok w',
      _EncodeInternal 8 e [x78] 2%positive 3%positive 1%positive caller_world
      = Ret (ok, w')
      ∧ (ok = false → mem w' !! 1%positive = mem caller_world !! 1%positive).
Proof.
  intros e.
  assert (H1 : MakeBloomFilter 8 e [x78] = Ret 40) by reflexivity.
  assert (H2 : GetPrrMasks 8 e [x78] = Ret (0, 0)) by reflexivity.
  assert (H3 : 1%positive ∈ dom (mem caller_world))
    by (apply elem_of_dom; eexists; reflexivity).
  assert (D2 : 2%positive ∈ dom (mem caller_world))
    by (apply elem_of_dom; eexists; reflexivity).
  assert (D3 : 3%positive ∈ dom (mem caller_world))
    by (apply elem_of_dom; eexists; reflexivity).
  assert (N2 : 1%positive ≠ 2%positive) by discriminate.
  assert (N3 : 1%positive ≠ 3%positive) by discriminate.
  split; [repeat split; assumption |].
  destruct (irr_out_assigned_iff_true 8 e [x78] 1%positive caller_world
              40 (0, 0) H1 H2 H3) as [HE HI].
  split; [exact HE |].
  destruct (HI 2%positive 3%positive D2 D3)
    as (ok & w' & Hr & _ & _ & _ & _ & Hcell & _).
  exact (ex_intro _ ok (ex_intro _ w' (conj Hr (Hcell N2 N3)))).
Defined.

(** ** Determinism of the first two stages *)

(** Whatever the mask source does, a run of [_EncodeInternal] ends as
    [prr_stage] does, and stores the value of [prr_stage] through
    [prr_out]. *)
Lemma _EncodeInternal_stores_prr_stage {S : Type} (sizeof_Bits : Z)
    (e : Encoder S) (value : std_string) (bloom_out prr_out irr_out : addr)
    (w : world S) :
  bloom_out ∈ dom (mem w) →
  prr_out ∈ dom (mem w) →
  irr_out ∈ dom (mem w) →
  match prr_stage sizeof_Bits e value with
  | Ret prr =>
      ∃ ok w',
        _EncodeInternal sizeof_Bits e value bloom_out prr_out irr_out w
        = Ret (ok, w')
        ∧ (prr_out ≠ irr_out → mem w' !! prr_out = Some (Some prr))
  | AssertFail =>
      _EncodeInternal sizeof_Bits e value bloom_out prr_out irr_out w
      = AssertFail
  | Undefined =>
      _EncodeInternal sizeof_Bits e value bloom_out prr_out irr_out w
      = Undefined
  end.
Proof.
  intros Hb Hp Hi. unfold prr_stage.
  destruct (MakeBloomFilter sizeof_Bits e value) as [bloom | |] eqn:Hbloom;
    simpl.
  2, 3: unfold _EncodeInternal, mbind, M_bind, lift; by rewrite Hbloom.
  destruct (GetPrrMasks sizeof_Bits e value) as [masks | |] eqn:Hmasks; simpl.
  2, 3: unfold _EncodeInternal, mbind, M_bind, lift, store;
        rewrite Hbloom; simpl; rewrite decide_True by exact Hb;
        by rewrite Hmasks.
  rewrite (_EncodeInternal_run sizeof_Bits e value bloom masks) by assumption.
  destruct (PMask (irr_rand_ e) (rand w)) as [[p|] s1].
  - destruct (QMask (irr_rand_ e) s1) as [[q|] s2].
    + eexists _, _. split; [reflexivity |]. intros Hne. simpl.
      rewrite lookup_insert_ne by done. apply lookup_insert_eq.
    + eexists _, _. split; [reflexivity |]. intros _. simpl.
      apply lookup_insert_eq.
  - eexists _, _. split; [reflexivity |]. intros _. simpl.
    apply lookup_insert_eq.
Qed.

(** C8, as it stands: two valid encoders with the same cohort and the same
    digest function return the same Bloom filter for the same value.  They
    do not when their [num_bits] differ: for a digest that starts with the
    byte 9, 8 bits give [1 << 1] and 16 bits give [1 << 9], whether [Bits]
    has 4 bytes or 8. *)
Lemma bloom_filter_differs_across_parameters :
  ¬ (∀ (e1 e2 : Encoder unit) (value : std_string),
       IsValid e1 = Ret true → IsValid e2 = Ret true →
       cohort_ e1 = cohort_ e2 → md5_func_ e1 = md5_func_ e2 →
       MakeBloomFilter 4 e1 value = MakeBloomFilter 4 e2 value)
  ∧ ¬ (∀ (e1 e2 : Encoder unit) (value : std_string),
         IsValid e1 = Ret true → IsValid e2 = Ret true →
         cohort_ e1 = cohort_ e2 → md5_func_ e1 = md5_func_ e2 →
         MakeBloomFilter 8 e1 value = MakeBloomFilter 8 e2 value).
Proof.
  split; intros H.
  - specialize (H (stub_encoder 4 8 1 0 x09 x00 x00 None None)
                  (stub_encoder 4 16 1 0 x09 x00 x00 None None)
                  [x78] eq_refl eq_refl eq_refl eq_refl).
    vm_compute in H. discriminate H.
  - specialize (H (stub_encoder 8 8 1 0 x09 x00 x00 None None)
                  (stub_encoder 8 16 1 0 x09 x00 x00 None None)
                  [x78] eq_refl eq_refl eq_refl eq_refl).
    vm_compute in H. discriminate H.
Qed.

(** C8, amended: [MakeBloomFilter] is a function of the cohort, the value,
    the digest function and the parameters [num_bits] and [num_hashes];
    [GetPrrMasks] is a function of the secret, the value, the keyed digest
    function and the parameters [num_bits] and [prob_f]; and two encoders
    that differ at most in their mask source: whatever state the two sources
    are in, the two runs of [_EncodeInternal] end alike before the first
    draw or both store the same PRR. *)
Theorem deterministic_stages_given_parameters {S1 S2 : Type}
    (sizeof_Bits : Z) (e1 : Encoder S1) (e2 : Encoder S2)
    (value : std_string) :
  (cohort_ e1 = cohort_ e2 → md5_func_ e1 = md5_func_ e2 →
   num_bits_ e1 = num_bits_ e2 → num_hashes_ e1 = num_hashes_ e2 →
   MakeBloomFilter sizeof_Bits e1 value = MakeBloomFilter sizeof_Bits e2 value)
  ∧ (client_secret_ e1 = client_secret_ e2 → hmac_func_ e1 = hmac_func_ e2 →
     num_bits_ e1 = num_bits_ e2 → prob_f_ e1 = prob_f_ e2 →
     GetPrrMasks sizeof_Bits e1 value = GetPrrMasks sizeof_Bits e2 value)
  ∧ (cohort_ e1 = cohort_ e2 → md5_func_ e1 = md5_func_ e2 →
     num_bits_ e1 = num_bits_ e2 → num_hashes_ e1 = num_hashes_ e2 →
     client_secret_ e1 = client_secret_ e2 → hmac_func_ e1 = hmac_func_ e2 →
     prob_f_ e1 = prob_f_ e2 →
     ∀ (w1 : world S1) (w2 : world S2) (b1 p1 i1 b2 p2 i2 : addr),
       b1 ∈ dom (mem w1) → p1 ∈ dom (mem w1) → i1 ∈ dom (mem w1) →
       b2 ∈ dom (mem w2) → p2 ∈ dom (mem w2) → i2 ∈ dom (mem w2) →
       p1 ≠ i1 → p2 ≠ i2 →
       (_EncodeInternal sizeof_Bits e1 value b1 p1 i1 w1 = AssertFail
        ∧ _EncodeInternal sizeof_Bits e2 value b2 p2 i2 w2 = AssertFail)
       ∨ (_EncodeInternal sizeof_Bits e1 value b1 p1 i1 w1 = Undefined
          ∧ _EncodeInternal sizeof_Bits e2 value b2 p2 i2 w2 = Undefined)
       ∨ ∃ prr ok1 w1' ok2 w2',
           _EncodeInternal sizeof_Bits e1 value b1 p1 i1 w1 = Ret (ok1, w1')
           ∧ _EncodeInternal sizeof_Bits e2 value b2 p2 i2 w2
             = Ret (ok2, w2')
           ∧ mem w1' !! p1 = Some (Some prr)
           ∧ mem w2' !! p2 = Some (Some prr)).
Proof.
  assert (Hbloom : cohort_ e1 = cohort_ e2 → md5_func_ e1 = md5_func_ e2 →
    num_bits_ e1 = num_bits_ e2 → num_hashes_ e1 = num_hashes_ e2 →
    MakeBloomFilter sizeof_Bits e1 value = MakeBloomFilter sizeof_Bits e2 value).
  { intros Hc Hm Hn Hh. unfold MakeBloomFilter. by rewrite Hc, Hm, Hn, Hh. }
  assert (Hmasks : client_secret_ e1 = client_secret_ e2 →
    hmac_func_ e1 = hmac_func_ e2 →
    num_bits_ e1 = num_bits_ e2 → prob_f_ e1 = prob_f_ e2 →
    GetPrrMasks sizeof_Bits e1 value = GetPrrMasks sizeof_Bits e2 value).
  { intros Hs Hm Hn Hf. unfold GetPrrMasks. by rewrite Hs, Hm, Hn, Hf. }
  split; [exact Hbloom |]. split; [exact Hmasks |].
  intros Hc Hm Hn Hh Hs Hk Hf w1 w2 b1 p1 i1 b2 p2 i2
    Hb1 Hp1 Hi1 Hb2 Hp2 Hi2 Hne1 Hne2.
  assert (Hstage : prr_stage sizeof_Bits e1 value
                   = prr_stage sizeof_Bits e2 value).
  { unfold prr_stage. by rewrite Hbloom, Hmasks. }
  pose proof (_EncodeInternal_stores_prr_stage sizeof_Bits e1 value
                b1 p1 i1 w1 Hb1 Hp1 Hi1) as R1.
  pose proof (_EncodeInternal_stores_prr_stage sizeof_Bits e2 value
                b2 p2 i2 w2 Hb2 Hp2 Hi2) as R2.
  rewrite <- Hstage in R2.
  destruct (prr_stage sizeof_Bits e1 value) as [prr | |].
  - right; right.
    destruct R1 as (ok1 & w1' & Hr1 & Hm1).
    destruct R2 as (ok2 & w2' & Hr2 & Hm2).
    exists prr, ok1, w1', ok2, w2'. auto.
  - left. auto.
  - right; left. auto.
Qed.

Lemma deterministic_stages_given_parameters_witness :
  let e1 := stub_encoder 8 8 2 (1 # 2) x03 x05 x07 (Some 255) (Some 0) in
  let e2 := stub_encoder 8 8 2 (1 # 2) x03 x05 x07 None None in
  MakeBloomFilter 8 e1 [x78] = MakeBloomFilter 8 e2 [x78]
  ∧ GetPrrMasks 8 e1 [x78] = GetPrrMasks 8 e2 [x78]
  ∧ ∃ prr ok1 w1' ok2 w2',
      _EncodeInternal 8 e1 [x78] 1%positive 2%positive 3%positive caller_world
      = Ret (ok1, w1')
      ∧ _EncodeInternal 8 e2 [x78] 2%positive 1%positive 3%positive
          caller_world = Ret (ok2, w2')
      ∧ mem w1' !! 2%positive = Some (Some prr)
      ∧ mem w2' !! 1%positive = Some (Some prr).
Proof.
  intros e1 e2.
  destruct (deterministic_stages_given_parameters 8 e1 e2 [x78])
    as (Ha & Hb & Hc).
  split; [exact (Ha eq_refl eq_refl eq_refl eq_refl) |].
  split; [exact (Hb eq_refl eq_refl eq_refl eq_refl) |].
  assert (D1 : 1%positive ∈ dom (mem caller_world))
    by (apply elem_of_dom; eexists; reflexivity).
  assert (D2 : 2%positive ∈ dom (mem caller_world))
    by (apply elem_of_dom; eexists; reflexivity).
  assert (D3 : 3%positive ∈ dom (mem caller_world))
    by (apply elem_of_dom; eexists; reflexivity).
  assert (N1 : 2%positive ≠ 3%positive) by discriminate.
  assert (N2 : 1%positive ≠ 3%positive) by discriminate.
  destruct (Hc eq_refl eq_refl eq_refl eq_refl eq_refl eq_refl eq_refl
              caller_world caller_world
              1%positive 2%positive 3%positive
              2%positive 1%positive 3%positive
              D1 D2 D3 D2 D1 D3 N1 N2)
    as [[H _] | [[H _] | H]].
  - vm_compute in H. discriminate H.
  - vm_compute in H. discriminate H.
  - exact H.
Defined.

(** * Further properties of the encoder *)

(** ** More on loops and bytes *)

(** What a loop returns, if it returns, satisfies every property that the
    start value has and that each completed step keeps. *)
Lemma for_loop_post {A : Type} (P : A → Prop) (body : Z → A → result A)
    (count : nat) (i0 : Z) (acc r : A) :
  P acc →
  (∀ i a a', P a → body i a = Ret a' → P a') →
  for_loop count i0 body acc = Ret r → P r.
Proof.
  intros Hinit Hstep. revert i0 acc Hinit.
  induction count as [| n IH]; intros i0 acc Hinit; simpl.
  - intros [= <-]. exact Hinit.
  - destruct (body i0 acc) as [a' | |] eqn:Hb; simpl; try discriminate.
    apply IH. by eapply Hstep.
Qed.

(** A loop whose steps never fail an assertion and whose step [k] is
    undefined has no defined outcome once it is long enough to reach [k]. *)
Lemma for_loop_undefined {A : Type} (body : Z → A → result A)
    (count : nat) (i0 k : Z) (acc : A) :
  (∀ i a, body i a ≠ AssertFail) →
  (∀ a, body k a = Undefined) →
  i0 ≤ k < i0 + Z.of_nat count →
  for_loop count i0 body acc = Undefined.
Proof.
  intros Hno Hk. revert i0 acc.
  induction count as [| n IH]; intros i0 acc Hrange; [lia |].
  simpl. destruct (decide (i0 = k)) as [-> | Hne].
  - by rewrite Hk.
  - destruct (body i0 acc) as [a' | |] eqn:Hb; simpl.
    + apply IH. lia.
    + by apply Hno in Hb.
    + reflexivity.
Qed.

Lemma byte_to_of_Z (z : Z) : byte_to_Z (byte_of_Z z) = z mod 256.
Proof.
  unfold byte_to_Z, byte_of_Z.
  pose proof (Z.mod_pos_bound z 256 ltac:(lia)) as Hm.
  destruct (Byte.of_N (Z.to_N (z mod 256))) as [b |] eqn:Hb; simpl.
  - apply Byte.to_of_N in Hb. rewrite Hb. lia.
  - apply Byte.of_N_None_iff in Hb. lia.
Qed.

Lemma testbit_high_zero_range (x k : Z) :
  0 ≤ k → 0 ≤ x → (∀ i, k ≤ i → Z.testbit x i = false) → x < 2 ^ k.
Proof.
  intros Hk Hx Hbits.
  destruct (Z.eq_dec x 0) as [-> | Hne]; [apply Z.pow_pos_nonneg; lia |].
  apply Z.log2_lt_pow2; [lia |].
  destruct (Z.lt_ge_cases (Z.log2 x) k) as [Hlt | Hge]; [exact Hlt |].
  specialize (Hbits (Z.log2 x) Hge).
  rewrite Z.bit_log2 in Hbits by lia. discriminate.
Qed.

(** ** The six-argument constructor *)

(** X1: after the six-argument constructor, [IsValid] returns [true]
    exactly when [num_bits] is at most [sizeof(Bits) * 8] and a multiple of
    8, and [false] otherwise; it never reads an unassigned member.
    [num_bytes_] follows the divisibility test alone: whenever [num_bits] is
    a multiple of 8, valid or too wide, [num_bytes_ * 8] is [num_bits], and
    otherwise [num_bytes_] is 0 and the encoder is invalid.  Hence every
    valid encoder has [num_bytes_ * 8 = num_bits_], and zero and the negative
    multiples of 8 are valid. *)
Theorem Encoder_new_validity {S : Type} (sizeof_Bits : Z) (params : Params)
    (cohort : Z) (md5 : Md5Func) (secret : std_string) (hmac : HmacFunc)
    (irr_rand : IrrRandInterface S) :
  let e := Encoder_new sizeof_Bits params cohort md5 secret hmac irr_rand in
  (IsValid e = Ret true
   ↔ num_bits params ≤ sizeof_Bits * 8 ∧ num_bits params mod 8 = 0)
  ∧ (IsValid e = Ret false
     ↔ sizeof_Bits * 8 < num_bits params ∨ num_bits params mod 8 ≠ 0)
  ∧ (num_bits params mod 8 = 0 →
     ∃ n, num_bytes_ e = Some n ∧ n * 8 = num_bits_ e)
  ∧ (num_bits params mod 8 ≠ 0 →
     num_bytes_ e = Some 0 ∧ IsValid e = Ret false)
  ∧ (IsValid e = Ret true →
     ∃ n, num_bytes_ e = Some n ∧ n * 8 = num_bits_ e)
  ∧ (0 ≤ sizeof_Bits → num_bits params ≤ 0 → num_bits params mod 8 = 0 →
     IsValid e = Ret true).
Proof.
  intros e.
  assert (Hv : IsValid e
    = Ret (bool_decide (num_bits params ≤ sizeof_Bits * 8
                        ∧ num_bits params mod 8 = 0)))
    by apply IsValid_Encoder_new.
  assert (Hdiv : Z.rem (num_bits params) 8 = 0 ↔ num_bits params mod 8 = 0).
  { rewrite Z.rem_divide, Z.mod_divide by lia. reflexivity. }
  assert (Hbytes : num_bits params mod 8 = 0 →
    ∃ n, num_bytes_ e = Some n ∧ n * 8 = num_bits_ e).
  { intros Hm. exists (Z.quot (num_bits params) 8).
    subst e. unfold Encoder_new.
    rewrite decide_True by tauto. simpl. split; [reflexivity |].
    apply Z.div_exact in Hm; [| lia].
    rewrite Hm at 1 2. rewrite (Z.mul_comm 8), Z.quot_mul by lia. lia. }
  assert (Htrue : IsValid e = Ret true
    ↔ num_bits params ≤ sizeof_Bits * 8 ∧ num_bits params mod 8 = 0).
  { rewrite Hv. split.
    - intros [= H]. by apply bool_decide_eq_true in H.
    - intros H. f_equal. by apply bool_decide_eq_true_2. }
  assert (Hfalse : IsValid e = Ret false
    ↔ sizeof_Bits * 8 < num_bits params ∨ num_bits params mod 8 ≠ 0).
  { rewrite Hv. split.
    - intros [= H]. apply bool_decide_eq_false in H. lia.
    - intros H. f_equal. apply bool_decide_eq_false_2. lia. }
  split; [exact Htrue |]. split; [exact Hfalse |].
  split; [exact Hbytes |]. split; [| split].
  - intros Hm. split; [| apply Hfalse; by right].
    subst e. unfold Encoder_new. rewrite decide_False by tauto. reflexivity.
  - intros Hval. apply Hbytes. by apply Htrue in Hval as [_ ?].
  - intros Hsz Hle Hm. apply Htrue. split; [lia | exact Hm].
Qed.

(** ** The digest input *)

(** X2: the digest input is the three bytes 0, the byte [cohort mod 256]
    and then the value unchanged: it is 4 bytes longer than the value, also
    for the empty value and for a value that contains zero bytes. *)
Theorem hash_input_layout (cohort : Z) (value : std_string) :
  hash_input_of cohort value
  = [x00; x00; x00; byte_of_Z (cohort mod 256)] ++ value
  ∧ length (hash_input_of cohort value) = (4 + length value)%nat
  ∧ byte_to_Z <$> (hash_input_of cohort value !! 3%nat)
    = Some (cohort mod 256)
  ∧ drop 4 (hash_input_of cohort value) = value.
Proof.
  rewrite hash_input_of_eq. repeat split.
  simpl. f_equal. rewrite byte_to_of_Z. apply Z.mod_mod. lia.
Qed.

(** X3: two digest inputs are equal exactly when the values are equal and
    the cohorts agree modulo 256; the cohort enters by its low byte only. *)
Theorem hash_input_eq_iff (c1 c2 : Z) (v1 v2 : std_string) :
  hash_input_of c1 v1 = hash_input_of c2 v2
  ↔ c1 mod 256 = c2 mod 256 ∧ v1 = v2.
Proof.
  rewrite !hash_input_of_eq. split.
  - intros [= Hc Hv]. split; [| exact Hv].
    apply (f_equal byte_to_Z) in Hc. rewrite !byte_to_of_Z in Hc.
    by rewrite !Z.mod_mod in Hc by lia.
  - intros [-> ->]. reflexivity.
Qed.

(** ** The Bloom filter beyond its usual range *)

(** X4: cohorts that agree modulo 256 give the same Bloom filter (or the
    same failure) on encoders with the same digest function, [num_bits] and
    [num_hashes]: cohort 257 cannot be told from cohort 1. *)
Theorem MakeBloomFilter_cohort_mod_256 {S1 S2 : Type} (sizeof_Bits : Z)
    (e1 : Encoder S1) (e2 : Encoder S2) (value : std_string) :
  cohort_ e1 mod 256 = cohort_ e2 mod 256 →
  md5_func_ e1 = md5_func_ e2 →
  num_bits_ e1 = num_bits_ e2 →
  num_hashes_ e1 = num_hashes_ e2 →
  MakeBloomFilter sizeof_Bits e1 value = MakeBloomFilter sizeof_Bits e2 value.
Proof.
  intros Hc Hm Hn Hh. unfold MakeBloomFilter.
  rewrite !hash_input_of_eq, Hc, Hm, Hn, Hh. reflexivity.
Qed.

Lemma MakeBloomFilter_cohort_mod_256_witness :
  let params := {| num_bits := 8; num_hashes := 2; prob_f := 0 |} in
  let e1 := Encoder_new 8 params 1 (md5_stub x03 x05) [] (hmac_stub x00)
              (fixed_rand None None) in
  let e2 := Encoder_new 8 params 257 (md5_stub x03 x05) [] (hmac_stub x00)
              (fixed_rand None None) in
  (cohort_ e1 mod 256 = cohort_ e2 mod 256
   ∧ md5_func_ e1 = md5_func_ e2
   ∧ num_bits_ e1 = num_bits_ e2
   ∧ num_hashes_ e1 = num_hashes_ e2)
  ∧ MakeBloomFilter 8 e1 [x78] = MakeBloomFilter 8 e2 [x78].
Proof.
  intros params e1 e2.
  assert (H1 : cohort_ e1 mod 256 = cohort_ e2 mod 256) by reflexivity.
  assert (H2 : md5_func_ e1 = md5_func_ e2) by reflexivity.
  assert (H3 : num_bits_ e1 = num_bits_ e2) by reflexivity.
  assert (H4 : num_hashes_ e1 = num_hashes_ e2) by reflexivity.
  split; [repeat split; assumption |].
  exact (MakeBloomFilter_cohort_mod_256 8 e1 e2 [x78] H1 H2 H3 H4).
Defined.

(** X5: without hash probes ([num_hashes <= 0]) the Bloom filter is 0,
    whatever the digest and whatever [num_bits], zero included: the digest
    is computed and never read. *)
Theorem MakeBloomFilter_no_hashes {S : Type} (sizeof_Bits : Z)
    (e : Encoder S) (value : std_string) :
  num_hashes_ e ≤ 0 →
  MakeBloomFilter sizeof_Bits e value = Ret 0.
Proof.
  intros Hn. unfold MakeBloomFilter, for_int.
  replace (Z.to_nat (num_hashes_ e)) with 0%nat by lia. reflexivity.
Qed.

Lemma MakeBloomFilter_no_hashes_witness :
  let e := stub_encoder 8 0 (-3) 0 x03 x05 x00 None None in
  num_hashes_ e ≤ 0 ∧ MakeBloomFilter 8 e [x78] = Ret 0.
Proof.
  intros e.
  assert (H : num_hashes_ e ≤ 0) by (simpl; lia).
  split; [exact H |].
  exact (MakeBloomFilter_no_hashes 8 e [x78] H).
Defined.

Lemma bloom_step_no_assert {n : nat} (sizeof_Bits nbits : Z)
    (md5 : vec byte n) (i bloom : Z) :
  (byte ← array_get md5 i;
   bit_to_set ← int_rem byte nbits;
   one_bit ← int_shl 1 bit_to_set;
   Ret (Bits_or_int sizeof_Bits bloom one_bit)) ≠ AssertFail.
Proof.
  unfold array_get, int_rem, int_shl.
  repeat (case_decide || case_match); simpl; try discriminate.
  all: repeat (case_decide || case_match); simpl; discriminate.
Qed.

(** X6: the constructor does not bound [num_hashes], and the seventeenth
    probe reads past the 16 bytes of the digest: with [num_hashes > 16],
    [MakeBloomFilter] has no defined result, for every encoder and value. *)
Theorem MakeBloomFilter_too_many_hashes {S : Type} (sizeof_Bits : Z)
    (e : Encoder S) (value : std_string) :
  16 < num_hashes_ e →
  MakeBloomFilter sizeof_Bits e value = Undefined.
Proof.
  intros Hn. unfold MakeBloomFilter, for_int.
  apply (for_loop_undefined _ _ 0 16).
  - intros i a. apply bloom_step_no_assert.
  - intros a. unfold array_get. rewrite decide_True by lia.
    rewrite lookup_ge_None_2; [reflexivity |].
    rewrite length_vec_to_list. simpl. lia.
  - lia.
Qed.

Lemma MakeBloomFilter_too_many_hashes_witness :
  let e := stub_encoder 8 8 17 0 x03 x05 x00 None None in
  (16 < num_hashes_ e)
  ∧ IsValid e = Ret true
  ∧ MakeBloomFilter 8 e [x78] = Undefined.
Proof.
  intros e.
  assert (H : 16 < num_hashes_ e) by (simpl; lia).
  split; [exact H |]. split; [reflexivity |].
  exact (MakeBloomFilter_too_many_hashes 8 e [x78] H).
Defined.

(** ** The bits of the Bloom filter *)

Lemma bloom_fold_nonneg (nbits : Z) (l : list byte) :
  0 ≤ foldr (λ b acc, Z.lor (Z.shiftl 1 (byte_to_Z b mod nbits)) acc) 0 l.
Proof.
  induction l as [| b l IH]; simpl; [lia |].
  apply Z.lor_nonneg. split; [| exact IH].
  apply Z.shiftl_nonneg. lia.
Qed.

(** X7: for [1 <= num_bits <= sizeof(Bits) * 8], at most 16 hashes, and
    [num_bits < 32] or [Bits] of at most 32 bits, [MakeBloomFilter] returns
    a value below [2 ^ num_bits] whose bit [k] is set exactly when one of the
    first [num_hashes] digest bytes is [k] modulo [num_bits]; probes that
    collide set one bit, and the value is 0 only without probes. *)
Theorem MakeBloomFilter_bits {S : Type} (sizeof_Bits : Z) (e : Encoder S)
    (value : std_string) :
  0 ≤ sizeof_Bits →
  1 ≤ num_bits_ e ≤ sizeof_Bits * 8 →
  num_hashes_ e ≤ 16 →
  num_bits_ e < 32 ∨ sizeof_Bits * 8 ≤ 32 →
  let digest := vec_to_list (md5_func_ e (hash_input_of (cohort_ e) value)) in
  ∃ bloom,
    MakeBloomFilter sizeof_Bits e value = Ret bloom
    ∧ 0 ≤ bloom < 2 ^ num_bits_ e
    ∧ (∀ k, Z.testbit bloom k = true
            ↔ ∃ (i : nat) (b : byte),
                Z.of_nat i < num_hashes_ e
                ∧ digest !! i = Some b
                ∧ byte_to_Z b mod num_bits_ e = k)
    ∧ (bloom = 0 ↔ num_hashes_ e ≤ 0).
Proof.
  intros Hsz Hnb Hnh Hext digest.
  exists (bloom_spec (num_bits_ e) (num_hashes_ e) (cohort_ e)
            (md5_func_ e) value).
  split; [by apply MakeBloomFilter_correct |].
  assert (Hbits : ∀ k,
    Z.testbit (bloom_spec (num_bits_ e) (num_hashes_ e) (cohort_ e)
                 (md5_func_ e) value) k = true
    ↔ ∃ (i : nat) (b : byte),
        Z.of_nat i < num_hashes_ e
        ∧ digest !! i = Some b
        ∧ byte_to_Z b mod num_bits_ e = k).
  { intros k. subst digest. rewrite hash_input_of_eq. unfold bloom_spec.
    destruct (Z.lt_ge_cases k 0) as [Hneg | Hk].
    { rewrite Z.testbit_neg_r by exact Hneg. split; [discriminate |].
      intros (i & b & _ & _ & Hb).
      pose proof (Z.mod_pos_bound (byte_to_Z b) (num_bits_ e)). lia. }
    rewrite bloom_spec_fold_testbit by lia.
    rewrite existsb_exists. split.
    - intros (b & Hin & Hb). apply bool_decide_eq_true in Hb.
      apply list_elem_of_In, elem_of_take in Hin as (i & Hi & Hlt).
      exists i, b. split; [lia |]. done.
    - intros (i & b & Hlt & Hi & Hb). exists b. split.
      + apply list_elem_of_In, elem_of_take. exists i. split; [done | lia].
      + by apply bool_decide_eq_true. }
  split; [| split; [exact Hbits |]].
  - split; [apply bloom_fold_nonneg |].
    apply testbit_high_zero_range; [lia | apply bloom_fold_nonneg |].
    intros i Hi. apply bloom_spec_high_bits; lia.
  - split.
    + intros H0. destruct (Z.le_gt_cases (num_hashes_ e) 0) as [Hle | Hgt];
        [exact Hle | exfalso].
      destruct (lookup_lt_is_Some_2 digest 0) as [b Hb].
      { subst digest. rewrite length_vec_to_list. lia. }
      assert (Hset : Z.testbit (bloom_spec (num_bits_ e) (num_hashes_ e)
                       (cohort_ e) (md5_func_ e) value)
                       (byte_to_Z b mod num_bits_ e) = true).
      { apply Hbits. exists 0%nat, b. split; [lia | done]. }
      rewrite H0, Z.bits_0 in Hset. discriminate.
    + intros Hle. unfold bloom_spec.
      replace (Z.to_nat (num_hashes_ e)) with 0%nat by lia. reflexivity.
Qed.

Lemma MakeBloomFilter_bits_witness :
  let e := stub_encoder 8 8 2 0 x0b x0d x00 None None in
  (0 ≤ 8
   ∧ 1 ≤ num_bits_ e ≤ 8 * 8
   ∧ num_hashes_ e ≤ 16
   ∧ (num_bits_ e < 32 ∨ 8 * 8 ≤ 32))
  ∧ ∃ bloom,
      MakeBloomFilter 8 e [x78] = Ret bloom
      ∧ 0 ≤ bloom < 2 ^ num_bits_ e
      ∧ (bloom = 0 ↔ num_hashes_ e ≤ 0).
Proof.
  intros e.
  assert (H0 : 0 ≤ 8) by lia.
  assert (H1 : 1 ≤ num_bits_ e ≤ 8 * 8) by (simpl; lia).
  assert (H2 : num_hashes_ e ≤ 16) by (simpl; lia).
  assert (H3 : num_bits_ e < 32 ∨ 8 * 8 ≤ 32) by (left; simpl; lia).
  split; [repeat split; try assumption; simpl; lia |].
  destruct (MakeBloomFilter_bits 8 e [x78] H0 H1 H2 H3)
    as (bloom & Hb & Hr & _ & Hz).
  exact (ex_intro _ bloom (conj Hb (conj Hr Hz))).
Defined.

(** ** The PRR masks, bit by bit and at the edges *)

Lemma land_1_odd (x : Z) : bool_decide (Z.land x 1 = 1) = Z.odd x.
Proof.
  assert (H : Z.land x 1 = x mod 2).
  { change 1 with (Z.ones 1). rewrite Z.land_ones by lia. reflexivity. }
  rewrite H, <- Z.bit0_odd, <- Z.bit0_mod.
  destruct (Z.testbit x 0); reflexivity.
Qed.


(** X8: for [num_bits <= 32], [num_bits <= sizeof(Bits) * 8], [prob_f] in
    [0, 1], and [num_bits < 32] or [Bits] of at most 32 bits, [GetPrrMasks]
    returns two masks: for [i] below [num_bits], bit [i] of [uniform] says
    whether byte [i] of the keyed digest is odd and bit [i] of [f_mask]
    whether half that byte, rounded down, is below [floor(prob_f * 128)];
    the bits from [num_bits] up are 0 in both. *)
Theorem GetPrrMasks_bits {S : Type} (sizeof_Bits : Z) (e : Encoder S)
    (value : std_string) :
  0 ≤ sizeof_Bits →
  num_bits_ e ≤ sizeof_Bits * 8 →
  num_bits_ e ≤ 32 →
  num_bits_ e < 32 ∨ sizeof_Bits * 8 ≤ 32 →
  (0 <= prob_f_ e)%Q → (prob_f_ e <= 1)%Q →
  let d := hmac_func_ e (client_secret_ e) value in
  ∃ uniform f_mask,
    GetPrrMasks sizeof_Bits e value = Ret (uniform, f_mask)
    ∧ 0 ≤ uniform ∧ 0 ≤ f_mask
    ∧ (∀ i, 0 ≤ i < num_bits_ e →
         Z.testbit uniform i = Z.odd (sha_byte d i)
         ∧ Z.testbit f_mask i
           = bool_decide (sha_byte d i / 2 < Qfloor (prob_f_ e * 128)))
    ∧ (∀ i, num_bits_ e ≤ i →
         Z.testbit uniform i = false ∧ Z.testbit f_mask i = false).
Proof.
  intros Hsz Hfit H32 Hext Hlo Hhi d.
  destruct (GetPrrMasks_correct sizeof_Bits e value Hsz Hfit H32 Hext Hlo Hhi)
    as (u & f & Hm & Hu & Hf & Hbits).
  exists u, f. split; [exact Hm |]. split; [exact Hu |]. split; [exact Hf |].
  split.
  - intros i Hi. destruct (Hbits i) as [-> ->]; [lia |]. fold d. split.
    + rewrite <- land_1_odd. apply bool_decide_ext. lia.
    + rewrite Z.shiftr_div_pow2 by lia. change (2 ^ 1) with 2.
      apply bool_decide_ext. unfold threshold_spec. lia.
  - intros i Hi.
    destruct (Z.lt_ge_cases i 0) as [Hneg | Hnn].
    { by rewrite !Z.testbit_neg_r by exact Hneg. }
    destruct (Hbits i Hnn) as [-> ->].
    split; apply bool_decide_eq_false_2; lia.
Qed.

Lemma GetPrrMasks_bits_witness :
  let e := stub_encoder 8 8 2 (1 # 2) x03 x05 x83 None None in
  (0 ≤ 8
   ∧ num_bits_ e ≤ 8 * 8
   ∧ num_bits_ e ≤ 32
   ∧ (num_bits_ e < 32 ∨ 8 * 8 ≤ 32)
   ∧ (0 <= prob_f_ e)%Q ∧ (prob_f_ e <= 1)%Q)
  ∧ ∃ uniform f_mask,
      GetPrrMasks 8 e [x78] = Ret (uniform, f_mask)
      ∧ 0 ≤ uniform ∧ 0 ≤ f_mask.
Proof.
  intros e.
  assert (H0 : 0 ≤ 8) by lia.
  assert (H1 : num_bits_ e ≤ 8 * 8) by (simpl; lia).
  assert (H2 : num_bits_ e ≤ 32) by (simpl; lia).
  assert (H3 : num_bits_ e < 32 ∨ 8 * 8 ≤ 32) by (left; simpl; lia).
  assert (H4 : (0 <= prob_f_ e)%Q) by (vm_compute; discriminate).
  assert (H5 : (prob_f_ e <= 1)%Q) by (vm_compute; discriminate).
  split; [repeat split; assumption |].
  destruct (GetPrrMasks_bits 8 e [x78] H0 H1 H2 H3 H4 H5)
    as (u & f & Hm & Hu & Hf & _).
  exact (ex_intro _ u (ex_intro _ f (conj Hm (conj Hu Hf)))).
Defined.

(** X9: an encoder with [num_bits > 32] never encodes: [GetPrrMasks] stops
    at its assertion, so neither [_EncodeInternal] nor [Encode] returns a
    result, whatever the value, the memory and the mask source. *)
Theorem num_bits_above_32_never_encodes {S : Type} (sizeof_Bits : Z)
    (e : Encoder S) (value : std_string) :
  32 < num_bits_ e →
  GetPrrMasks sizeof_Bits e value = AssertFail
  ∧ (∀ bloom_out prr_out irr_out w r,
       _EncodeInternal sizeof_Bits e value bloom_out prr_out irr_out w
       ≠ Ret r)
  ∧ (∀ irr_out w r, Encode sizeof_Bits e value irr_out w ≠ Ret r).
Proof.
  intros Hnb.
  assert (Hg : GetPrrMasks sizeof_Bits e value = AssertFail).
  { unfold GetPrrMasks. by rewrite bool_decide_eq_false_2 by lia. }
  assert (Hint : ∀ bloom_out prr_out irr_out w r,
    _EncodeInternal sizeof_Bits e value bloom_out prr_out irr_out w ≠ Ret r).
  { intros bloom_out prr_out irr_out w r.
    unfold _EncodeInternal, mbind, M_bind, lift, store.
    destruct (MakeBloomFilter sizeof_Bits e value); try discriminate.
    case_decide; try discriminate.
    rewrite Hg. discriminate. }
  split; [exact Hg |]. split; [exact Hint |].
  intros irr_out w r. unfold Encode, alloca, dealloc.
  unfold mbind at 1, M_bind at 1. cbv beta iota.
  unfold mbind at 1, M_bind at 1. cbv beta iota.
  unfold mbind at 1, M_bind at 1.
  match goal with
  | |- context [_EncodeInternal ?a ?b ?c ?p1 ?p2 ?p3 ?w'] =>
      pose proof (Hint p1 p2 p3 w') as Hno;
      destruct (_EncodeInternal a b c p1 p2 p3 w') as [[ok w''] | |]
  end; try discriminate.
  by destruct (Hno (ok, w'')).
Qed.

Lemma num_bits_above_32_never_encodes_witness :
  let e := stub_encoder 8 40 2 0 x03 x05 x00 (Some 255) (Some 0) in
  32 < num_bits_ e
  ∧ IsValid e = Ret true
  ∧ GetPrrMasks 8 e [x78] = AssertFail.
Proof.
  intros e.
  assert (H : 32 < num_bits_ e) by (simpl; lia).
  split; [exact H |]. split; [reflexivity |].
  exact (proj1 (num_bits_above_32_never_encodes 8 e [x78] H)).
Defined.

(** X10: the constructor does not look at [prob_f], and
    [static_cast<uint8_t>(prob_f_ * 128)] has no defined value once the
    product is 256 or more, or -1 or less: for [prob_f >= 2] and for
    [prob_f <= -1/128], [GetPrrMasks] has no defined result. *)
Theorem GetPrrMasks_prob_f_out_of_range {S : Type} (sizeof_Bits : Z)
    (e : Encoder S) (value : std_string) :
  num_bits_ e ≤ 32 →
  (2 <= prob_f_ e)%Q ∨ (prob_f_ e <= - (1 # 128))%Q →
  GetPrrMasks sizeof_Bits e value = Undefined.
Proof.
  intros H32 Hf. unfold GetPrrMasks.
  rewrite bool_decide_eq_true_2 by exact H32. simpl.
  assert (Hcast : float_to_uint8 (prob_f_ e * 128) = Undefined);
    [| by rewrite Hcast].
  unfold float_to_uint8. destruct (prob_f_ e) as [n dn].
  unfold Qle in Hf. simpl in *.
  rewrite decide_False; [reflexivity |].
  rewrite Pos.mul_1_r.
  destruct Hf as [Hge | Hle].
  - assert (256 ≤ Z.quot (n * 128) (Z.pos dn)); [| lia].
    rewrite Z.quot_div_nonneg by lia.
    apply Z.div_le_lower_bound; lia.
  - assert (Z.quot (n * 128) (Z.pos dn) ≤ -1); [| lia].
    replace (n * 128) with (- (- n * 128)) by lia.
    rewrite Z.quot_opp_l by lia.
    assert (1 ≤ Z.quot (- n * 128) (Z.pos dn)); [| lia].
    rewrite Z.quot_div_nonneg by lia.
    apply Z.div_le_lower_bound; lia.
Qed.

Lemma GetPrrMasks_prob_f_out_of_range_witness :
  let e := stub_encoder 8 8 2 (5 # 2) x03 x05 x00 None None in
  (num_bits_ e ≤ 32
   ∧ ((2 <= prob_f_ e)%Q ∨ (prob_f_ e <= - (1 # 128))%Q))
  ∧ IsValid e = Ret true
  ∧ GetPrrMasks 8 e [x78] = Undefined.
Proof.
  intros e.
  assert (H1 : num_bits_ e ≤ 32) by (simpl; lia).
  assert (H2 : (2 <= prob_f_ e)%Q ∨ (prob_f_ e <= - (1 # 128))%Q)
    by (left; vm_compute; discriminate).
  split; [split; assumption |]. split; [reflexivity |].
  exact (GetPrrMasks_prob_f_out_of_range 8 e [x78] H1 H2).
Defined.

(** ** Values of type [Bits] *)

Lemma MakeBloomFilter_range {S : Type} (sizeof_Bits : Z) (e : Encoder S)
    (value : std_string) (bloom : Z) :
  0 ≤ sizeof_Bits →
  MakeBloomFilter sizeof_Bits e value = Ret bloom →
  0 ≤ bloom < 2 ^ (sizeof_Bits * 8).
Proof.
  intros Hsz. unfold MakeBloomFilter, for_int.
  apply (for_loop_post (λ b : Z, 0 ≤ b < 2 ^ (sizeof_Bits * 8))).
  - split; [lia | apply Z.pow_pos_nonneg; lia].
  - intros i a a' _. unfold mbind, result_bind.
    destruct (array_get _ i); try discriminate.
    destruct (int_rem _ _); try discriminate.
    destruct (int_shl _ _); try discriminate.
    intros [= <-]. by apply to_Bits_range.
Qed.

Lemma GetPrrMasks_range {S : Type} (sizeof_Bits : Z) (e : Encoder S)
    (value : std_string) (masks : Z * Z) :
  0 ≤ sizeof_Bits →
  GetPrrMasks sizeof_Bits e value = Ret masks →
  0 ≤ masks.1 < 2 ^ (sizeof_Bits * 8) ∧ 0 ≤ masks.2 < 2 ^ (sizeof_Bits * 8).
Proof.
  intros Hsz. unfold GetPrrMasks, for_int.
  unfold mbind at 1, result_bind at 1.
  destruct (assert _); try discriminate.
  unfold mbind at 1, result_bind at 1.
  destruct (float_to_uint8 _) as [t | |]; try discriminate.
  apply (for_loop_post
    (λ uf : Z * Z, 0 ≤ uf.1 < 2 ^ (sizeof_Bits * 8)
                   ∧ 0 ≤ uf.2 < 2 ^ (sizeof_Bits * 8))).
  - assert (0 < 2 ^ (sizeof_Bits * 8)) by (apply Z.pow_pos_nonneg; lia).
    simpl. lia.
  - intros i [u f] a' _. unfold mbind, result_bind.
    destruct (array_get _ i); try discriminate.
    destruct (int_shl _ _); try discriminate.
    destruct (int_shl _ _); try discriminate.
    intros [= <-]. simpl. split; by apply to_Bits_range.
Qed.

Lemma prr_of_nonneg (sizeof_Bits bloom uniform f_mask : Z) :
  0 ≤ bloom → 0 ≤ uniform → 0 ≤ prr_of sizeof_Bits bloom uniform f_mask.
Proof.
  intros Hb Hu. unfold prr_of.
  apply Z.lor_nonneg. split; apply Z.land_nonneg; auto.
Qed.

Lemma irr_of_nonneg (sizeof_Bits prr p_bits q_bits : Z) :
  0 ≤ p_bits → 0 ≤ q_bits → 0 ≤ irr_of sizeof_Bits prr p_bits q_bits.
Proof.
  intros Hp Hq. unfold irr_of.
  apply Z.lor_nonneg. split; apply Z.land_nonneg; auto.
Qed.

(** Without noise positions the PRR is the Bloom filter. *)
Lemma prr_of_no_noise (sizeof_Bits bloom uniform : Z) :
  0 ≤ sizeof_Bits →
  0 ≤ bloom < 2 ^ (sizeof_Bits * 8) →
  prr_of sizeof_Bits bloom uniform 0 = bloom.
Proof.
  intros Hsz Hb. unfold prr_of. rewrite Z.land_0_r, Z.lor_0_r.
  apply Z.bits_inj'. intros i Hi. rewrite Z.land_spec.
  destruct (Z.lt_ge_cases i (sizeof_Bits * 8)) as [Hlt | Hge].
  - rewrite Bits_not_testbit by (auto; lia).
    rewrite Z.bits_0. apply andb_true_r.
  - by rewrite (testbit_above bloom (sizeof_Bits * 8)) by lia.
Qed.


(** ** How much noise the PRR adds *)

Lemma threshold_spec_zero (f : Q) :
  (0 <= f)%Q → (f < 1 # 128)%Q → threshold_spec f = 0.
Proof.
  intros H0 H1. unfold threshold_spec. destruct f as [n dn].
  unfold Qle, Qlt in *. simpl in *.
  apply Z.div_small. lia.
Qed.


Lemma threshold_spec_mono (f1 f2 : Q) :
  (f1 <= f2)%Q → threshold_spec f1 ≤ threshold_spec f2.
Proof.
  intros H. unfold threshold_spec. apply Qfloor_resp_le.
  apply Qmult_le_compat_r; [exact H | discriminate].
Qed.

(** X11: a [num_bits] of zero or less passes the constructor when it is a
    multiple of 8, and then adds no noise at all: for [prob_f] in [0, 1] the
    loop of [GetPrrMasks] never runs, both masks are 0, and the PRR is the
    Bloom filter itself (or the Bloom filter stage fails). *)
Theorem nonpositive_num_bits_adds_no_noise {S : Type} (sizeof_Bits : Z)
    (e : Encoder S) (value : std_string) :
  0 ≤ sizeof_Bits →
  num_bits_ e ≤ 0 →
  (0 <= prob_f_ e)%Q → (prob_f_ e <= 1)%Q →
  GetPrrMasks sizeof_Bits e value = Ret (0, 0)
  ∧ prr_stage sizeof_Bits e value = MakeBloomFilter sizeof_Bits e value.
Proof.
  intros Hsz Hnb Hlo Hhi.
  assert (Hg : GetPrrMasks sizeof_Bits e value = Ret (0, 0)).
  { unfold GetPrrMasks, for_int.
    rewrite bool_decide_eq_true_2 by lia. simpl.
    destruct (float_to_uint8_floor (prob_f_ e) Hlo Hhi) as [-> _]. simpl.
    replace (Z.to_nat (num_bits_ e)) with 0%nat by lia. reflexivity. }
  split; [exact Hg |].
  unfold prr_stage.
  destruct (MakeBloomFilter sizeof_Bits e value) as [bloom | |] eqn:Hb;
    simpl; try reflexivity.
  rewrite Hg. simpl. f_equal.
  apply prr_of_no_noise; [exact Hsz |].
  by apply (MakeBloomFilter_range sizeof_Bits e value).
Qed.

Lemma nonpositive_num_bits_adds_no_noise_witness :
  let e := stub_encoder 8 (-8) 2 1 x0b x0d x01 None None in
  (0 ≤ 8 ∧ num_bits_ e ≤ 0 ∧ (0 <= prob_f_ e)%Q ∧ (prob_f_ e <= 1)%Q)
  ∧ IsValid e = Ret true
  ∧ MakeBloomFilter 8 e [x78] = Ret 40
  ∧ prr_stage 8 e [x78] = MakeBloomFilter 8 e [x78].
Proof.
  intros e.
  assert (H0 : 0 ≤ 8) by lia.
  assert (H1 : num_bits_ e ≤ 0) by (simpl; lia).
  assert (H2 : (0 <= prob_f_ e)%Q) by (vm_compute; discriminate).
  assert (H3 : (prob_f_ e <= 1)%Q) by (vm_compute; discriminate).
  split; [repeat split; assumption |].
  split; [reflexivity |]. split; [reflexivity |].
  exact (proj2 (nonpositive_num_bits_adds_no_noise 8 e [x78] H0 H1 H2 H3)).
Defined.

(** X12: for [num_bits <= 32] (so that the assertion holds) and
    [0 <= prob_f < 1/128], the threshold is 0, [f_mask] is 0 whatever the
    keyed digest and the width of [Bits] are, and the PRR is the Bloom
    filter (or the Bloom filter stage fails). *)
Theorem prob_f_below_resolution_adds_no_noise {S : Type} (sizeof_Bits : Z)
    (e : Encoder S) (value : std_string) :
  0 ≤ sizeof_Bits →
  num_bits_ e ≤ 32 →
  (0 <= prob_f_ e)%Q → (prob_f_ e < 1 # 128)%Q →
  (∃ uniform, GetPrrMasks sizeof_Bits e value = Ret (uniform, 0))
  ∧ prr_stage sizeof_Bits e value = MakeBloomFilter sizeof_Bits e value.
Proof.
  intros Hsz H32 Hlo Hlt.
  assert (Hhi : (prob_f_ e <= 1)%Q).
  { destruct (prob_f_ e) as [n dn]. unfold Qle, Qlt in *. simpl in *. lia. }
  assert (Hg : ∃ uniform, GetPrrMasks sizeof_Bits e value = Ret (uniform, 0)).
  { unfold GetPrrMasks, for_int.
    rewrite bool_decide_eq_true_2 by exact H32. simpl.
    destruct (float_to_uint8_floor (prob_f_ e) Hlo Hhi) as [-> _]. simpl.
    rewrite threshold_spec_zero by assumption.
    edestruct (for_loop_inv (λ (_ : Z) (uf : Z * Z), uf.2 = 0))
      as ([u f] & Hr & Hf); [| | rewrite Hr].
    - reflexivity.
    - intros i [u f] Hi Hf0. simpl in Hf0. subst f.
      destruct (array_get_in_bounds
                  (hmac_func_ e (client_secret_ e) value) i)
        as (b & _ & ->); [simpl; lia |]. simpl.
      pose proof (byte_to_Z_range b) as Hb.
      assert (Hpow : 0 < 2 ^ i < 2 ^ 32).
      { split; [apply Z.pow_pos_nonneg; lia |].
        apply Z.pow_lt_mono_r; lia. }
      assert (Hs1 : ∃ s, int_shl (Z.land (byte_to_Z b) 1) i = Ret s).
      { unfold int_shl. rewrite decide_True; [by eexists |].
        destruct (land_1_cases (byte_to_Z b)) as [Hl | Hl]; rewrite Hl; lia. }
      assert (Hs2 : int_shl 0 i = Ret 0).
      { unfold int_shl. rewrite decide_True by lia.
        by rewrite Z.mul_0_l. }
      assert (0 ≤ Z.shiftr (byte_to_Z b) 1) by (apply Z.shiftr_nonneg; lia).
      destruct Hs1 as [s ->]. simpl.
      rewrite decide_False by lia. rewrite Hs2. simpl.
      eexists. split; [reflexivity |]. simpl.
      unfold Bits_or_int, to_Bits. simpl. apply Zmod_0_l.
    - simpl in Hf. subst f. by exists u. }
  split; [exact Hg |]. destruct Hg as [u Hm].
  unfold prr_stage.
  destruct (MakeBloomFilter sizeof_Bits e value) as [bloom | |] eqn:Hb;
    simpl; try reflexivity.
  rewrite Hm. simpl. f_equal.
  apply prr_of_no_noise; [exact Hsz |].
  by apply (MakeBloomFilter_range sizeof_Bits e value).
Qed.

Lemma prob_f_below_resolution_adds_no_noise_witness :
  let e := stub_encoder 8 32 2 (1 # 200) x0b x0d x01 None None in
  (0 ≤ 8
   ∧ num_bits_ e ≤ 32
   ∧ (0 <= prob_f_ e)%Q ∧ (prob_f_ e < 1 # 128)%Q)
  ∧ (∃ uniform, GetPrrMasks 8 e [x78] = Ret (uniform, 0))
  ∧ prr_stage 8 e [x78] = MakeBloomFilter 8 e [x78].
Proof.
  intros e.
  assert (H0 : 0 ≤ 8) by lia.
  assert (H2 : num_bits_ e ≤ 32) by (simpl; lia).
  assert (H4 : (0 <= prob_f_ e)%Q) by (vm_compute; discriminate).
  assert (H5 : (prob_f_ e < 1 # 128)%Q) by (vm_compute; reflexivity).
  split; [repeat split; assumption |].
  exact (prob_f_below_resolution_adds_no_noise 8 e [x78] H0 H2 H4 H5).
Defined.



(** Two loops that run in step keep every relation between their
    accumulators that the start values have and that each pair of steps
    keeps. *)
Lemma for_loop_rel {A B : Type} (R : A → B → Prop)
    (body1 : Z → A → result A) (body2 : Z → B → result B)
    (count : nat) (i0 : Z) (a : A) (b : B) :
  R a b →
  (∀ i a b, i0 ≤ i < i0 + Z.of_nat count → R a b →
     ∃ a' b', body1 i a = Ret a' ∧ body2 i b = Ret b' ∧ R a' b') →
  ∃ ra rb, for_loop count i0 body1 a = Ret ra
           ∧ for_loop count i0 body2 b = Ret rb
           ∧ R ra rb.
Proof.
  revert i0 a b. induction count as [| n IH]; intros i0 a b Hinit Hstep.
  - by exists a, b.
  - destruct (Hstep i0 a b) as (a' & b' & Ha & Hb & HR); [lia | exact Hinit |].
    destruct (IH (i0 + 1) a' b' HR) as (ra & rb & Hra & Hrb & HRr).
    { intros i x y Hi. apply Hstep. lia. }
    exists ra, rb. simpl. rewrite Ha, Hb. simpl. done.
Qed.

(** X14: more [prob_f] means more noise positions and never fewer: for
    [num_bits <= 32], on two encoders with the same secret, keyed digest
    function and [num_bits], and [0 <= prob_f1 <= prob_f2 <= 1], both calls
    of [GetPrrMasks] return, the uniform masks are equal and every bit of
    the first [f_mask] is a bit of the second, whatever the width of
    [Bits]. *)
Theorem f_mask_grows_with_prob_f {S1 S2 : Type} (sizeof_Bits : Z)
    (e1 : Encoder S1) (e2 : Encoder S2) (value : std_string) :
  num_bits_ e1 ≤ 32 →
  client_secret_ e1 = client_secret_ e2 →
  hmac_func_ e1 = hmac_func_ e2 →
  num_bits_ e1 = num_bits_ e2 →
  (0 <= prob_f_ e1)%Q → (prob_f_ e1 <= prob_f_ e2)%Q → (prob_f_ e2 <= 1)%Q →
  ∃ uniform f_mask1 f_mask2,
    GetPrrMasks sizeof_Bits e1 value = Ret (uniform, f_mask1)
    ∧ GetPrrMasks sizeof_Bits e2 value = Ret (uniform, f_mask2)
    ∧ Z.land f_mask1 f_mask2 = f_mask1.
Proof.
  intros H32 Hs Hh Hn Hlo Hle Hhi.
  assert (Hhi1 : (prob_f_ e1 <= 1)%Q) by (eapply Qle_trans; eassumption).
  assert (Hlo2 : (0 <= prob_f_ e2)%Q) by (eapply Qle_trans; eassumption).
  pose proof (threshold_spec_mono _ _ Hle) as Hthr.
  unfold GetPrrMasks, for_int. rewrite <- Hs, <- Hh, <- Hn.
  rewrite bool_decide_eq_true_2 by exact H32. simpl.
  destruct (float_to_uint8_floor (prob_f_ e1) Hlo Hhi1) as [-> _].
  destruct (float_to_uint8_floor (prob_f_ e2) Hlo2 Hhi) as [-> _]. simpl.
  set (t1 := threshold_spec (prob_f_ e1)) in *.
  set (t2 := threshold_spec (prob_f_ e2)) in *.
  edestruct (for_loop_rel
    (λ uf1 uf2 : Z * Z, uf1.1 = uf2.1 ∧ Z.land uf1.2 uf2.2 = uf1.2))
    as ([u1 f1] & [u2 f2] & Hr1 & Hr2 & Hu & Hf);
    [| | rewrite Hr1, Hr2].
  - split; reflexivity.
  - intros i [u f1] [u' f2] Hi [Hu Hf]. simpl in Hu, Hf. subst u'.
    destruct (array_get_in_bounds
                (hmac_func_ e1 (client_secret_ e1) value) i)
      as (b & _ & ->); [simpl; lia |]. simpl.
    assert (Hpow : 0 < 2 ^ i < 2 ^ 32).
    { split; [apply Z.pow_pos_nonneg; lia |].
      apply Z.pow_lt_mono_r; lia. }
    assert (Hshl : ∀ a, a = 0 ∨ a = 1 →
              int_shl a i = Ret (to_int (a * 2 ^ i))).
    { intros a Ha. unfold int_shl. rewrite decide_True; [reflexivity |].
      destruct Ha as [-> | ->]; lia. }
    rewrite (Hshl _ (land_1_cases (byte_to_Z b))). simpl.
    set (r := Z.shiftr (byte_to_Z b) 1).
    set (n1 := if decide (r < t1) then 1 else 0).
    set (n2 := if decide (r < t2) then 1 else 0).
    assert (Hn1 : n1 = 0 ∨ n1 = 1) by (subst n1; case_decide; auto).
    assert (Hn2 : n2 = 0 ∨ n2 = 1) by (subst n2; case_decide; auto).
    assert (Hn12 : n1 = 0 ∨ n2 = n1).
    { subst n1 n2. repeat case_decide; auto; lia. }
    rewrite (Hshl n1 Hn1), (Hshl n2 Hn2). simpl.
    eexists _, _. split; [reflexivity |]. split; [reflexivity |]. simpl.
    split; [reflexivity |].
    apply Z.bits_inj'. intros k Hk.
    unfold Bits_or_int, to_Bits.
    rewrite Z.land_spec.
    assert (Hbit : Z.testbit f1 k = Z.testbit f1 k && Z.testbit f2 k).
    { rewrite <- Hf at 1. apply Z.land_spec. }
    destruct (Z.lt_ge_cases k (kMaxBits sizeof_Bits)) as [Hlt | Hge].
    + rewrite !Z.mod_pow2_bits_low by lia. rewrite !Z.lor_spec.
      destruct Hn12 as [-> | ->].
      * rewrite Z.mul_0_l. change (to_int 0) with 0.
        rewrite Z.bits_0, orb_false_r, Hbit.
        destruct (Z.testbit f1 k), (Z.testbit f2 k); reflexivity.
      * rewrite Hbit.
        destruct (Z.testbit f1 k), (Z.testbit f2 k),
          (Z.testbit (to_int (n1 * 2 ^ i)) k); reflexivity.
    + destruct (Z.lt_ge_cases (kMaxBits sizeof_Bits) 0) as [Hneg | Hnn].
      * rewrite !(Z.pow_neg_r 2 (kMaxBits sizeof_Bits)) by exact Hneg.
        rewrite !Z.mod_0_r. rewrite !Z.lor_spec.
        destruct Hn12 as [-> | ->].
        -- rewrite Z.mul_0_l. change (to_int 0) with 0.
           rewrite Z.bits_0, orb_false_r, Hbit.
           destruct (Z.testbit f1 k), (Z.testbit f2 k); reflexivity.
        -- rewrite Hbit.
           destruct (Z.testbit f1 k), (Z.testbit f2 k),
             (Z.testbit (to_int (n1 * 2 ^ i)) k); reflexivity.
      * by rewrite !Z.mod_pow2_bits_high by lia.
  - simpl in Hu, Hf. subst u2. by exists u1, f1, f2.
Qed.

Lemma f_mask_grows_with_prob_f_witness :
  let e1 := stub_encoder 8 32 2 (1 # 4) x0b x0d x55 None None in
  let e2 := stub_encoder 8 32 2 (3 # 4) x0b x0d x55 (Some 1) (Some 2) in
  (num_bits_ e1 ≤ 32
   ∧ client_secret_ e1 = client_secret_ e2
   ∧ hmac_func_ e1 = hmac_func_ e2
   ∧ num_bits_ e1 = num_bits_ e2
   ∧ (0 <= prob_f_ e1)%Q
   ∧ (prob_f_ e1 <= prob_f_ e2)%Q
   ∧ (prob_f_ e2 <= 1)%Q)
  ∧ ∃ uniform f_mask1 f_mask2,
      GetPrrMasks 8 e1 [x78] = Ret (uniform, f_mask1)
      ∧ GetPrrMasks 8 e2 [x78] = Ret (uniform, f_mask2)
      ∧ Z.land f_mask1 f_mask2 = f_mask1.
Proof.
  intros e1 e2.
  assert (H2 : num_bits_ e1 ≤ 32) by (simpl; lia).
  assert (H4 : client_secret_ e1 = client_secret_ e2) by reflexivity.
  assert (H5 : hmac_func_ e1 = hmac_func_ e2) by reflexivity.
  assert (H6 : num_bits_ e1 = num_bits_ e2) by reflexivity.
  assert (H7 : (0 <= prob_f_ e1)%Q) by (vm_compute; discriminate).
  assert (H8 : (prob_f_ e1 <= prob_f_ e2)%Q) by (vm_compute; discriminate).
  assert (H9 : (prob_f_ e2 <= 1)%Q) by (vm_compute; discriminate).
  split; [repeat split; assumption |].
  exact (f_mask_grows_with_prob_f 8 e1 e2 [x78] H2 H4 H5 H6 H7 H8 H9).
Defined.

(** ** The width of the vectors *)

(** X15: for [1 <= num_bits <= 32], [num_bits <= sizeof(Bits) * 8], at most
    16 hashes, [prob_f] in [0, 1], and [num_bits < 32] or [Bits] of at most
    32 bits, the Bloom filter, both masks and the PRR are below
    [2 ^ num_bits], and so is the report for all masks below
    [2 ^ num_bits]. *)
Theorem pipeline_values_below_2_pow_num_bits {S : Type} (sizeof_Bits : Z)
    (e : Encoder S) (value : std_string) :
  0 ≤ sizeof_Bits →
  1 ≤ num_bits_ e ≤ sizeof_Bits * 8 →
  num_bits_ e ≤ 32 →
  num_hashes_ e ≤ 16 →
  num_bits_ e < 32 ∨ sizeof_Bits * 8 ≤ 32 →
  (0 <= prob_f_ e)%Q → (prob_f_ e <= 1)%Q →
  ∃ bloom uniform f_mask,
    MakeBloomFilter sizeof_Bits e value = Ret bloom
    ∧ GetPrrMasks sizeof_Bits e value = Ret (uniform, f_mask)
    ∧ 0 ≤ bloom < 2 ^ num_bits_ e
    ∧ 0 ≤ uniform < 2 ^ num_bits_ e
    ∧ 0 ≤ f_mask < 2 ^ num_bits_ e
    ∧ 0 ≤ prr_of sizeof_Bits bloom uniform f_mask < 2 ^ num_bits_ e
    ∧ ∀ p_bits q_bits,
        0 ≤ p_bits < 2 ^ num_bits_ e → 0 ≤ q_bits < 2 ^ num_bits_ e →
        0 ≤ irr_of sizeof_Bits (prr_of sizeof_Bits bloom uniform f_mask)
              p_bits q_bits < 2 ^ num_bits_ e.
Proof.
  intros Hsz Hnb H32 Hnh Hext Hlo Hhi.
  destruct (pipeline_high_bits_zero sizeof_Bits e value
              Hsz Hnb H32 Hnh Hext Hlo Hhi)
    as (bloom & u & f & Hb & Hm & Hhigh).
  pose proof (MakeBloomFilter_range sizeof_Bits e value bloom Hsz Hb) as Hbr.
  pose proof (GetPrrMasks_range sizeof_Bits e value (u, f) Hsz Hm)
    as [Hur Hfr]. simpl in Hur, Hfr.
  exists bloom, u, f. split; [exact Hb |]. split; [exact Hm |].
  assert (Hlt : ∀ x, 0 ≤ x →
    (∀ i, num_bits_ e ≤ i → Z.testbit x i = false) → 0 ≤ x < 2 ^ num_bits_ e).
  { intros x Hx Hbits. split; [exact Hx |].
    apply testbit_high_zero_range; [lia | exact Hx | exact Hbits]. }
  repeat split; try lia; try (apply Hlt; [lia |]; intros i Hi; by apply Hhigh).
  - apply prr_of_nonneg; lia.
  - apply Hlt; [apply prr_of_nonneg; lia |]. intros i Hi. by apply Hhigh.
  - apply irr_of_nonneg; lia.
  - apply Hlt; [apply irr_of_nonneg; lia |]. intros i Hi.
    apply irr_of_clean.
    + apply (testbit_above p_bits (num_bits_ e)); lia.
    + apply (testbit_above q_bits (num_bits_ e)); lia.
Qed.

Lemma pipeline_values_below_2_pow_num_bits_witness :
  let e := stub_encoder 4 32 2 (1 # 2) x1f x0d x83 None None in
  (0 ≤ 4
   ∧ 1 ≤ num_bits_ e ≤ 4 * 8
   ∧ num_bits_ e ≤ 32
   ∧ num_hashes_ e ≤ 16
   ∧ (num_bits_ e < 32 ∨ 4 * 8 ≤ 32)
   ∧ (0 <= prob_f_ e)%Q ∧ (prob_f_ e <= 1)%Q)
  ∧ ∃ bloom uniform f_mask,
      MakeBloomFilter 4 e [x78] = Ret bloom
      ∧ GetPrrMasks 4 e [x78] = Ret (uniform, f_mask)
      ∧ 0 ≤ bloom < 2 ^ num_bits_ e
      ∧ 0 ≤ uniform < 2 ^ num_bits_ e
      ∧ 0 ≤ f_mask < 2 ^ num_bits_ e
      ∧ 0 ≤ prr_of 4 bloom uniform f_mask < 2 ^ num_bits_ e.
Proof.
  intros e.
  assert (H0 : 0 ≤ 4) by lia.
  assert (H1 : 1 ≤ num_bits_ e ≤ 4 * 8) by (simpl; lia).
  assert (H2 : num_bits_ e ≤ 32) by (simpl; lia).
  assert (H3 : num_hashes_ e ≤ 16) by (simpl; lia).
  assert (H4 : num_bits_ e < 32 ∨ 4 * 8 ≤ 32) by (right; lia).
  assert (H5 : (0 <= prob_f_ e)%Q) by (vm_compute; discriminate).
  assert (H6 : (prob_f_ e <= 1)%Q) by (vm_compute; discriminate).
  split; [repeat split; try assumption; simpl; lia |].
  destruct (pipeline_values_below_2_pow_num_bits 4 e [x78]
              H0 H1 H2 H3 H4 H5 H6)
    as (bloom & u & f & Hb & Hm & Hbr & Hur & Hfr & Hpr & _).
  exact (ex_intro _ bloom (ex_intro _ u (ex_intro _ f
           (conj Hb (conj Hm (conj Hbr (conj Hur (conj Hfr Hpr)))))))).
Defined.

(** ** Reports for particular masks *)

Lemma irr_of_equal_masks (sizeof_Bits prr m : Z) :
  0 ≤ sizeof_Bits → 0 ≤ m < 2 ^ (sizeof_Bits * 8) →
  irr_of sizeof_Bits prr m m = m.
Proof.
  intros Hsz Hm. apply Z.bits_inj'. intros i Hi.
  destruct (Z.lt_ge_cases i (sizeof_Bits * 8)) as [Hlt | Hge].
  - rewrite irr_of_testbit by (auto; lia). by destruct (Z.testbit prr i).
  - rewrite irr_of_clean; rewrite ?(testbit_above m (sizeof_Bits * 8)) by lia;
      reflexivity.
Qed.

Lemma all_ones_Bits (sizeof_Bits : Z) :
  0 ≤ sizeof_Bits →
  to_Bits sizeof_Bits (2 ^ (sizeof_Bits * 8) - 1) = Z.ones (sizeof_Bits * 8).
Proof.
  intros Hsz. rewrite Z.ones_equiv.
  unfold to_Bits, kMaxBits. apply Z.mod_small.
  assert (0 < 2 ^ (sizeof_Bits * 8)) by (apply Z.pow_pos_nonneg; lia). lia.
Qed.

Lemma irr_of_zero_ones (sizeof_Bits prr : Z) :
  0 ≤ sizeof_Bits → 0 ≤ prr < 2 ^ (sizeof_Bits * 8) →
  irr_of sizeof_Bits prr 0 (Z.ones (sizeof_Bits * 8)) = prr.
Proof.
  intros Hsz Hp. unfold irr_of. rewrite Z.land_0_l, Z.lor_0_l.
  rewrite Z.land_comm, Z.land_ones by lia. by apply Z.mod_small.
Qed.

Lemma irr_of_ones_zero (sizeof_Bits prr : Z) :
  0 ≤ sizeof_Bits →
  irr_of sizeof_Bits prr (Z.ones (sizeof_Bits * 8)) 0
  = Bits_not sizeof_Bits prr.
Proof.
  intros Hsz. unfold irr_of. rewrite Z.land_0_l, Z.lor_0_r.
  rewrite Z.land_comm, Z.land_ones by lia.
  unfold Bits_not, to_Bits, kMaxBits. apply Z.mod_mod.
  apply Z.pow_nonzero; lia.
Qed.

Lemma prr_of_range (sizeof_Bits bloom uniform f_mask : Z) :
  0 ≤ sizeof_Bits →
  0 ≤ bloom < 2 ^ (sizeof_Bits * 8) →
  0 ≤ uniform < 2 ^ (sizeof_Bits * 8) →
  0 ≤ prr_of sizeof_Bits bloom uniform f_mask < 2 ^ (sizeof_Bits * 8).
Proof.
  intros Hsz Hb Hu. split; [apply prr_of_nonneg; lia |].
  apply testbit_high_zero_range; [lia | apply prr_of_nonneg; lia |].
  intros i Hi. apply prr_of_clean.
  - apply (testbit_above bloom (sizeof_Bits * 8)); lia.
  - apply (testbit_above uniform (sizeof_Bits * 8)); lia.
Qed.

(** X16: when both draws return the same mask, the report is that mask:
    [Encode] returns [true] and stores the mask through [irr_out], whatever
    the value, the Bloom filter and the PRR are. *)
Theorem equal_masks_hide_the_prr {S : Type} (sizeof_Bits : Z)
    (e : Encoder S) (value : std_string) (irr_out : addr) (w : world S)
    (bloom : Z) (masks : Z * Z) (m : Z) (s1 s2 : S) :
  0 ≤ sizeof_Bits →
  MakeBloomFilter sizeof_Bits e value = Ret bloom →
  GetPrrMasks sizeof_Bits e value = Ret masks →
  irr_out ∈ dom (mem w) →
  PMask (irr_rand_ e) (rand w) = (Some m, s1) →
  QMask (irr_rand_ e) s1 = (Some m, s2) →
  ∃ w', Encode sizeof_Bits e value irr_out w = Ret (true, w')
        ∧ mem w' = <[irr_out := Some (to_Bits sizeof_Bits m)]> (mem w).
Proof.
  intros Hsz Hb Hm Hi HP HQ.
  rewrite (Encode_run sizeof_Bits e value bloom masks) by assumption.
  rewrite HP, HQ. eexists. split; [reflexivity |]. simpl.
  rewrite irr_of_equal_masks; [reflexivity | exact Hsz |].
  by apply to_Bits_range.
Qed.

Lemma equal_masks_hide_the_prr_witness :
  let e := stub_encoder 8 8 2 (1 # 2) x03 x05 x83 (Some 165) (Some 165) in
  (0 ≤ 8
   ∧ MakeBloomFilter 8 e [x78] = Ret 40
   ∧ GetPrrMasks 8 e [x78] = Ret (255, 0)
   ∧ 1%positive ∈ dom (mem caller_world)
   ∧ PMask (irr_rand_ e) (rand caller_world) = (Some 165, ())
   ∧ QMask (irr_rand_ e) () = (Some 165, ()))
  ∧ ∃ w', Encode 8 e [x78] 1%positive caller_world = Ret (true, w')
          ∧ mem w' = <[1%positive := Some (to_Bits 8 165)]> (mem caller_world).
Proof.
  intros e.
  assert (H0 : 0 ≤ 8) by lia.
  assert (H1 : MakeBloomFilter 8 e [x78] = Ret 40) by reflexivity.
  assert (H2 : GetPrrMasks 8 e [x78] = Ret (255, 0)) by reflexivity.
  assert (H3 : 1%positive ∈ dom (mem caller_world))
    by (apply elem_of_dom; eexists; reflexivity).
  assert (H4 : PMask (irr_rand_ e) (rand caller_world) = (Some 165, ()))
    by reflexivity.
  assert (H5 : QMask (irr_rand_ e) () = (Some 165, ())) by reflexivity.
  split; [repeat split; assumption |].
  exact (equal_masks_hide_the_prr 8 e [x78] 1%positive caller_world
           40 (255, 0) 165 () () H0 H1 H2 H3 H4 H5).
Defined.

(** X17: the two extreme pairs of masks.  With [PMask] all zeros and
    [QMask] all ones the report is the PRR itself; with [PMask] all ones and
    [QMask] all zeros it is the complement of the PRR within [Bits]. *)
Theorem extreme_masks_reveal_the_prr {S : Type} (sizeof_Bits : Z)
    (e : Encoder S) (value : std_string) (irr_out : addr) (w : world S)
    (bloom : Z) (masks : Z * Z) :
  0 ≤ sizeof_Bits →
  MakeBloomFilter sizeof_Bits e value = Ret bloom →
  GetPrrMasks sizeof_Bits e value = Ret masks →
  irr_out ∈ dom (mem w) →
  let prr := prr_of sizeof_Bits bloom masks.1 masks.2 in
  let ones := 2 ^ (sizeof_Bits * 8) - 1 in
  (∀ s1 s2,
     PMask (irr_rand_ e) (rand w) = (Some 0, s1) →
     QMask (irr_rand_ e) s1 = (Some ones, s2) →
     ∃ w', Encode sizeof_Bits e value irr_out w = Ret (true, w')
           ∧ mem w' = <[irr_out := Some prr]> (mem w))
  ∧ (∀ s1 s2,
       PMask (irr_rand_ e) (rand w) = (Some ones, s1) →
       QMask (irr_rand_ e) s1 = (Some 0, s2) →
       ∃ w', Encode sizeof_Bits e value irr_out w = Ret (true, w')
             ∧ mem w' = <[irr_out := Some (Bits_not sizeof_Bits prr)]> (mem w)).
Proof.
  intros Hsz Hb Hm Hi prr ones.
  assert (Hz : to_Bits sizeof_Bits 0 = 0).
  { unfold to_Bits. apply Z.mod_0_l. apply Z.pow_nonzero; simpl; lia. }
  assert (Hprr : 0 ≤ prr < 2 ^ (sizeof_Bits * 8)).
  { pose proof (GetPrrMasks_range sizeof_Bits e value masks Hsz Hm) as [? ?].
    apply prr_of_range; try assumption.
    by apply (MakeBloomFilter_range sizeof_Bits e value). }
  split; intros s1 s2 HP HQ;
    rewrite (Encode_run sizeof_Bits e value bloom masks) by assumption;
    rewrite HP, HQ; eexists; (split; [reflexivity |]); simpl;
    subst ones; rewrite all_ones_Bits, Hz by exact Hsz; fold prr.
  - by rewrite irr_of_zero_ones.
  - by rewrite irr_of_ones_zero.
Qed.

Lemma extreme_masks_reveal_the_prr_witness :
  let e := stub_encoder 1 8 2 0 x03 x05 x00 (Some 255) (Some 0) in
  (0 ≤ 1
   ∧ MakeBloomFilter 1 e [x78] = Ret 40
   ∧ GetPrrMasks 1 e [x78] = Ret (0, 0)
   ∧ 1%positive ∈ dom (mem caller_world)
   ∧ PMask (irr_rand_ e) (rand caller_world) = (Some (2 ^ (1 * 8) - 1), ())
   ∧ QMask (irr_rand_ e) () = (Some 0, ()))
  ∧ ∃ w', Encode 1 e [x78] 1%positive caller_world = Ret (true, w')
          ∧ mem w' = <[1%positive := Some (Bits_not 1 (prr_of 1 40 0 0))]>
                       (mem caller_world).
Proof.
  intros e.
  assert (H0 : 0 ≤ 1) by lia.
  assert (H1 : MakeBloomFilter 1 e [x78] = Ret 40) by reflexivity.
  assert (H2 : GetPrrMasks 1 e [x78] = Ret (0, 0)) by reflexivity.
  assert (H3 : 1%positive ∈ dom (mem caller_world))
    by (apply elem_of_dom; eexists; reflexivity).
  assert (H4 : PMask (irr_rand_ e) (rand caller_world)
               = (Some (2 ^ (1 * 8) - 1), ())) by reflexivity.
  assert (H5 : QMask (irr_rand_ e) () = (Some 0, ())) by reflexivity.
  split; [repeat split; assumption |].
  exact (proj2 (extreme_masks_reveal_the_prr 1 e [x78] 1%positive
                  caller_world 40 (0, 0) H0 H1 H2 H3) () () H4 H5).
Defined.

(** ** The calls on the mask source *)

(** X18: once both deterministic stages have returned, [Encode] draws
    [PMask] first and exactly once, draws [QMask] once if and only if
    [PMask] succeeded, and returns [true] exactly when both succeeded; the
    mask source is left in the state after the last draw. *)
Theorem Encode_draws_p_then_q {S : Type} (sizeof_Bits : Z) (e : Encoder S)
    (value : std_string) (irr_out : addr) (w : world S)
    (bloom : Z) (masks : Z * Z) :
  MakeBloomFilter sizeof_Bits e value = Ret bloom →
  GetPrrMasks sizeof_Bits e value = Ret masks →
  irr_out ∈ dom (mem w) →
  let p := PMask (irr_rand_ e) (rand w) in
  let q := QMask (irr_rand_ e) p.2 in
  ∃ ok w',
    Encode sizeof_Bits e value irr_out w = Ret (ok, w')
    ∧ (ok = true ↔ is_Some p.1 ∧ is_Some q.1)
    ∧ trace w'
      = trace w ++ EvPMask :: match p.1 with
                              | Some _ => [EvQMask]
                              | None => []
                              end
    ∧ rand w' = match p.1 with Some _ => q.2 | None => p.2 end.
Proof.
  intros Hb Hm Hi p q.
  rewrite (Encode_run sizeof_Bits e value bloom masks) by assumption.
  subst q p.
  destruct (PMask (irr_rand_ e) (rand w)) as [[pm|] s1]; simpl.
  - destruct (QMask (irr_rand_ e) s1) as [[qm|] s2]; simpl.
    + eexists _, _. split; [reflexivity |]. simpl.
      split; [| split; [by rewrite <- app_assoc | reflexivity]].
      split; [intros _; split; by eexists | reflexivity].
    + eexists _, _. split; [reflexivity |]. simpl.
      split; [| split; [by rewrite <- app_assoc | reflexivity]].
      split; [discriminate |]. intros [_ [? ?]]. discriminate.
  - eexists _, _. split; [reflexivity |]. simpl.
    split; [| split; reflexivity].
    split; [discriminate |]. intros [[? ?] _]. discriminate.
Qed.

Lemma Encode_draws_p_then_q_witness :
  let e := stub_encoder 8 8 2 0 x03 x05 x00 None (Some 1) in
  (MakeBloomFilter 8 e [x78] = Ret 40
   ∧ GetPrrMasks 8 e [x78] = Ret (0, 0)
   ∧ 1%positive ∈ dom (mem caller_world))
  ∧ ∃ ok w',
      Encode 8 e [x78] 1%positive caller_world = Ret (ok, w')
      ∧ (ok = true ↔ is_Some (None : option Z) ∧ is_Some (Some 1))
      ∧ trace w' = [EvPMask].
Proof.
  intros e.
  assert (H1 : MakeBloomFilter 8 e [x78] = Ret 40) by reflexivity.
  assert (H2 : GetPrrMasks 8 e [x78] = Ret (0, 0)) by reflexivity.
  assert (H3 : 1%positive ∈ dom (mem caller_world))
    by (apply elem_of_dom; eexists; reflexivity).
  split; [repeat split; assumption |].
  destruct (Encode_draws_p_then_q 8 e [x78] 1%positive caller_world
              40 (0, 0) H1 H2 H3) as (ok & w' & Hr & Hok & Htr & _).
  exact (ex_intro _ ok (ex_intro _ w' (conj Hr (conj Hok Htr)))).
Defined.

(** ** [Encode] and [_EncodeInternal] *)

(** A failure of a deterministic stage is the outcome of [Encode]. *)
Lemma Encode_prr_stage_fails {S : Type} (sizeof_Bits : Z) (e : Encoder S)
    (value : std_string) (irr_out : addr) (w : world S) :
  match prr_stage sizeof_Bits e value with
  | Ret _ => True
  | AssertFail => Encode sizeof_Bits e value irr_out w = AssertFail
  | Undefined => Encode sizeof_Bits e value irr_out w = Undefined
  end.
Proof.
  unfold prr_stage.
  destruct (MakeBloomFilter sizeof_Bits e value) as [bloom | |] eqn:Hb; simpl.
  2, 3: unfold Encode, alloca, _EncodeInternal, mbind, M_bind, lift;
        by rewrite Hb.
  destruct (GetPrrMasks sizeof_Bits e value) as [masks | |] eqn:Hm; simpl;
    [exact I | |].
  all: unfold Encode, alloca, _EncodeInternal, mbind, M_bind, lift, store;
    rewrite Hb; simpl;
    rewrite decide_True by (rewrite !dom_insert_L; set_solver);
    by rewrite Hm.
Qed.

(** X19: [Encode] is [_EncodeInternal] with the two other outputs thrown
    away.  For allocated, distinct output cells, both fail alike, or both
    return the same flag, the same report in the cell of [irr_out], the same
    state of the mask source and the same calls; and [Encode] changes no
    other cell of the caller. *)
Theorem Encode_agrees_with_EncodeInternal {S : Type} (sizeof_Bits : Z)
    (e : Encoder S) (value : std_string) (bloom_out prr_out irr_out : addr)
    (w : world S) :
  bloom_out ∈ dom (mem w) →
  prr_out ∈ dom (mem w) →
  irr_out ∈ dom (mem w) →
  irr_out ≠ bloom_out →
  irr_out ≠ prr_out →
  match _EncodeInternal sizeof_Bits e value bloom_out prr_out irr_out w with
  | Ret (ok, w1) =>
      ∃ w2, Encode sizeof_Bits e value irr_out w = Ret (ok, w2)
            ∧ mem w2 !! irr_out = mem w1 !! irr_out
            ∧ rand w2 = rand w1
            ∧ trace w2 = trace w1
            ∧ ∀ a, a ≠ irr_out → mem w2 !! a = mem w !! a
  | AssertFail => Encode sizeof_Bits e value irr_out w = AssertFail
  | Undefined => Encode sizeof_Bits e value irr_out w = Undefined
  end.
Proof.
  intros Hb Hp Hi Hib Hip.
  pose proof (_EncodeInternal_stores_prr_stage sizeof_Bits e value
                bloom_out prr_out irr_out w Hb Hp Hi) as Hint.
  pose proof (Encode_prr_stage_fails sizeof_Bits e value irr_out w) as Henc.
  unfold prr_stage in Hint, Henc.
  destruct (MakeBloomFilter sizeof_Bits e value) as [bloom | |] eqn:Hbloom;
    simpl in Hint, Henc.
  2, 3: by rewrite Hint.
  destruct (GetPrrMasks sizeof_Bits e value) as [masks | |] eqn:Hmasks;
    simpl in Hint, Henc.
  2, 3: by rewrite Hint.
  clear Hint Henc.
  rewrite (_EncodeInternal_run sizeof_Bits e value bloom masks) by assumption.
  rewrite (Encode_run sizeof_Bits e value bloom masks) by assumption.
  destruct (PMask (irr_rand_ e) (rand w)) as [[pm|] s1].
  - destruct (QMask (irr_rand_ e) s1) as [[qm|] s2].
    + eexists. split; [reflexivity |]. simpl.
      split; [by rewrite !lookup_insert_eq |].
      split; [reflexivity |]. split; [reflexivity |].
      intros a Ha. by rewrite lookup_insert_ne.
    + eexists. split; [reflexivity |]. simpl.
      split; [by rewrite !lookup_insert_ne |]. done.
  - eexists. split; [reflexivity |]. simpl.
    split; [by rewrite !lookup_insert_ne |]. done.
Qed.

Lemma Encode_agrees_with_EncodeInternal_witness :
  let e := stub_encoder 8 8 2 0 x03 x05 x00 (Some 255) (Some 0) in
  (2%positive ∈ dom (mem caller_world)
   ∧ 3%positive ∈ dom (mem caller_world)
   ∧ 1%positive ∈ dom (mem caller_world)
   ∧ 1%positive ≠ 2%positive
   ∧ 1%positive ≠ 3%positive)
  ∧ match _EncodeInternal 8 e [x78] 2%positive 3%positive 1%positive
            caller_world with
    | Ret (ok, w1) =>
        ∃ w2, Encode 8 e [x78] 1%positive caller_world = Ret (ok, w2)
              ∧ mem w2 !! 1%positive = mem w1 !! 1%positive
              ∧ rand w2 = rand w1
              ∧ trace w2 = trace w1
              ∧ ∀ a, a ≠ 1%positive → mem w2 !! a = mem caller_world !! a
    | AssertFail => Encode 8 e [x78] 1%positive caller_world = AssertFail
    | Undefined => Encode 8 e [x78] 1%positive caller_world = Undefined
    end.
Proof.
  intros e.
  assert (H1 : 2%positive ∈ dom (mem caller_world))
    by (apply elem_of_dom; eexists; reflexivity).
  assert (H2 : 3%positive ∈ dom (mem caller_world))
    by (apply elem_of_dom; eexists; reflexivity).
  assert (H3 : 1%positive ∈ dom (mem caller_world))
    by (apply elem_of_dom; eexists; reflexivity).
  assert (H4 : 1%positive ≠ 2%positive) by discriminate.
  assert (H5 : 1%positive ≠ 3%positive) by discriminate.
  split; [repeat split; assumption |].
  exact (Encode_agrees_with_EncodeInternal 8 e [x78]
           2%positive 3%positive 1%positive caller_world H1 H2 H3 H4 H5).
Defined.

(** ** An [irr_out] that points to no object *)

Section dangling.

Context {S : Type}.
Variable sizeof_Bits : Z.
Variable e : Encoder S.
Variable value : std_string.
Variables (bloom : Z) (masks : Z * Z).
Hypothesis Hbloom : MakeBloomFilter sizeof_Bits e value = Ret bloom.
Hypothesis Hmasks : GetPrrMasks sizeof_Bits e value = Ret masks.

Let prr : Z := prr_of sizeof_Bits bloom masks.1 masks.2.

Lemma _EncodeInternal_run_dangling (bloom_out prr_out irr_out : addr)
    (w : world S) :
  bloom_out ∈ dom (mem w) →
  prr_out ∈ dom (mem w) →
  irr_out ∉ dom (mem w) →
  let m1 := <[prr_out := Some prr]> (<[bloom_out := Some bloom]> (mem w)) in
  _EncodeInternal sizeof_Bits e value bloom_out prr_out irr_out w =
    match PMask (irr_rand_ e) (rand w) with
    | (None, s1) =>
        Ret (false, {| mem := m1; rand := s1;
                       trace := trace w ++ [EvPMask] |})
    | (Some p, s1) =>
        match QMask (irr_rand_ e) s1 with
        | (None, s2) =>
            Ret (false, {| mem := m1; rand := s2;
                           trace := (trace w ++ [EvPMask]) ++ [EvQMask] |})
        | (Some q, s2) => Undefined
        end
    end.
Proof.
  intros Hb Hp Hi m1.
  unfold _EncodeInternal, mbind, M_bind, lift, store, call_mask, mret, M_ret.
  rewrite Hbloom. simpl. rewrite decide_True by exact Hb.
  rewrite Hmasks. simpl.
  rewrite decide_True by (rewrite dom_insert_L; set_solver).
  simpl. fold prr. fold m1.
  destruct (PMask (irr_rand_ e) (rand w)) as [[p|] s1]; [| reflexivity].
  simpl.
  destruct (QMask (irr_rand_ e) s1) as [[q|] s2]; [| reflexivity].
  simpl.
  rewrite decide_False; [reflexivity |].
  subst m1. rewrite !dom_insert_L.
  rewrite !not_elem_of_union, !not_elem_of_singleton.
  repeat split; [intros -> .. | exact Hi]; contradiction.
Qed.

Lemma Encode_run_dangling (irr_out : addr) (w : world S) :
  irr_out ∉ dom (mem w) →
  Encode sizeof_Bits e value irr_out w =
    match PMask (irr_rand_ e) (rand w) with
    | (None, s1) =>
        Ret (false, {| mem := mem w; rand := s1;
                       trace := trace w ++ [EvPMask] |})
    | (Some p, s1) =>
        match QMask (irr_rand_ e) s1 with
        | (None, s2) =>
            Ret (false, {| mem := mem w; rand := s2;
                           trace := (trace w ++ [EvPMask]) ++ [EvQMask] |})
        | (Some q, s2) => Undefined
        end
    end.
Proof.
  intros Hi.
  unfold Encode, alloca, dealloc.
  unfold mbind at 1, M_bind at 1. cbv beta iota.
  set (l1 := fresh ({[irr_out]} ∪ dom (mem w))).
  unfold mbind at 1, M_bind at 1. cbv beta iota. simpl mem.
  set (l2 := fresh ({[irr_out]} ∪ dom (<[l1 := None]> (mem w)))).
  assert (Hl1 : l1 ∉ ({[irr_out]} ∪ dom (mem w) : gset addr))
    by apply is_fresh.
  assert (Hl2 : l2 ∉ ({[irr_out]} ∪ dom (<[l1 := None]> (mem w)) : gset addr))
    by apply is_fresh.
  rewrite dom_insert_L in Hl2.
  assert (Hl12 : l1 ≠ l2) by set_solver.
  assert (Hl1i : irr_out ≠ l1) by set_solver.
  assert (Hl2i : irr_out ≠ l2) by set_solver.
  unfold mbind at 1, M_bind at 1.
  rewrite _EncodeInternal_run_dangling; simpl mem; simpl rand; simpl trace;
    rewrite ?dom_insert_L;
    [| first [ by (rewrite !not_elem_of_union, !not_elem_of_singleton; auto)
             | set_solver ] ..].
  assert (Hfail :
    delete l1 (delete l2
      (<[l2 := Some prr]> (<[l1 := Some bloom]>
         (<[l2 := None]> (<[l1 := None]> (mem w)))))) = mem w).
  { apply map_eq. intros k.
    destruct (decide (k = l1)) as [-> | Hk1].
    { rewrite lookup_delete_eq. symmetry. apply not_elem_of_dom. set_solver. }
    rewrite lookup_delete_ne by done.
    destruct (decide (k = l2)) as [-> | Hk2].
    { rewrite lookup_delete_eq. symmetry. apply not_elem_of_dom. set_solver. }
    rewrite lookup_delete_ne by done. by rewrite !lookup_insert_ne. }
  destruct (PMask (irr_rand_ e) (rand w)) as [[p|] s1].
  2: { unfold mbind, M_bind, mret, M_ret. simpl. by rewrite Hfail. }
  destruct (QMask (irr_rand_ e) s1) as [[q|] s2]; [reflexivity |].
  unfold mbind, M_bind, mret, M_ret. simpl. by rewrite Hfail.
Qed.

End dangling.

(** X20: [irr_out] is dereferenced only after both draws have succeeded.
    With an [irr_out] that points to no object, [Encode] still returns
    [false] and leaves the memory as it was when a mask draw fails; when no
    draw fails the store through [irr_out] is undefined. *)
Theorem Encode_with_dangling_irr_out {S : Type} (sizeof_Bits : Z)
    (e : Encoder S) (value : std_string) (irr_out : addr) (w : world S)
    (bloom : Z) (masks : Z * Z) :
  MakeBloomFilter sizeof_Bits e value = Ret bloom →
  GetPrrMasks sizeof_Bits e value = Ret masks →
  irr_out ∉ dom (mem w) →
  (mask_draw_fails (irr_rand_ e) (rand w) →
   ∃ w', Encode sizeof_Bits e value irr_out w = Ret (false, w')
         ∧ mem w' = mem w)
  ∧ (¬ mask_draw_fails (irr_rand_ e) (rand w) →
     Encode sizeof_Bits e value irr_out w = Undefined).
Proof.
  intros Hb Hm Hi.
  rewrite (Encode_run_dangling sizeof_Bits e value bloom masks) by assumption.
  unfold mask_draw_fails.
  destruct (PMask (irr_rand_ e) (rand w)) as [[p|] s1]; simpl.
  - destruct (QMask (irr_rand_ e) s1) as [[q|] s2]; simpl.
    + split; [| reflexivity]. intros [? | [_ ?]]; discriminate.
    + split; [intros _; by eexists |].
      intros Hno. exfalso. apply Hno. right. split; [by eexists | done].
  - split; [intros _; by eexists |].
    intros Hno. exfalso. apply Hno. by left.
Qed.

Lemma Encode_with_dangling_irr_out_witness :
  let e := stub_encoder 8 8 2 0 x03 x05 x00 (Some 255) None in
  (MakeBloomFilter 8 e [x78] = Ret 40
   ∧ GetPrrMasks 8 e [x78] = Ret (0, 0)
   ∧ (9%positive ∉ dom (mem caller_world))
   ∧ mask_draw_fails (irr_rand_ e) (rand caller_world))
  ∧ ∃ w', Encode 8 e [x78] 9%positive caller_world = Ret (false, w')
          ∧ mem w' = mem caller_world.
Proof.
  intros e.
  assert (H1 : MakeBloomFilter 8 e [x78] = Ret 40) by reflexivity.
  assert (H2 : GetPrrMasks 8 e [x78] = Ret (0, 0)) by reflexivity.
  assert (H3 : 9%positive ∉ dom (mem caller_world))
    by (apply not_elem_of_dom; reflexivity).
  assert (H4 : mask_draw_fails (irr_rand_ e) (rand caller_world))
    by (right; split; [by eexists | reflexivity]).
  split; [repeat split; assumption |].
  exact (proj1 (Encode_with_dangling_irr_out 8 e [x78] 9%positive
                  caller_world 40 (0, 0) H1 H2 H3) H4).
Defined.

(** ** The printed digests *)

Lemma printf_02x_digits (b : byte) :
  hex_value (hex_digit (byte_to_Z b / 16)) = Some (byte_to_Z b / 16)
  ∧ hex_value (hex_digit (byte_to_Z b mod 16)) = Some (byte_to_Z b mod 16)
  ∧ byte_of_Z (byte_to_Z b / 16 * 16 + byte_to_Z b mod 16) = b.
Proof. destruct b; vm_compute; repeat split. Qed.

Lemma read_hex_printed (l : list byte) :
  read_hex (concat (printf_02x <$> l)) = Some l.
Proof.
  induction l as [| b l IH]; [reflexivity |].
  destruct (printf_02x_digits b) as (Hhi & Hlo & Hb).
  cbn [fmap list_fmap concat printf_02x app read_hex].
  rewrite Hhi. cbn [mbind option_bind]. rewrite Hlo. cbn [mbind option_bind].
  rewrite IH. cbn [mbind option_bind]. by rewrite Hb.
Qed.

Lemma length_printed (l : list byte) :
  length (concat (printf_02x <$> l)) = (2 * length l)%nat.
Proof.
  induction l as [| b l IH]; [reflexivity |].
  cbn [fmap list_fmap concat printf_02x app length]. rewrite IH. lia.
Qed.

Lemma printed_is_hex (l : list byte) :
  Forall (λ c, is_Some (hex_value c)) (concat (printf_02x <$> l)).
Proof.
  induction l as [| b l IH]; [constructor |].
  destruct (printf_02x_digits b) as (Hhi & Hlo & _).
  cbn [fmap list_fmap concat printf_02x app].
  constructor; [by eexists |]. constructor; [by eexists | exact IH].
Qed.

Lemma print_digest_take {n : nat} (d : vec byte n) (k : nat) :
  k = (2 * n)%nat →
  take k (print_digest d) = concat (printf_02x <$> vec_to_list d).
Proof.
  intros ->. unfold print_digest. apply take_app_length'.
  by rewrite length_printed, length_vec_to_list.
Qed.

Lemma printed_lookup (l : list byte) (i : nat) (b : byte) :
  l !! i = Some b →
  concat (printf_02x <$> l) !! (2 * i)%nat
  = Some (hex_digit (byte_to_Z b / 16))
  ∧ concat (printf_02x <$> l) !! (2 * i + 1)%nat
    = Some (hex_digit (byte_to_Z b mod 16)).
Proof.
  revert i. induction l as [| c l IH]; intros i Hi; [discriminate |].
  cbn [fmap list_fmap concat printf_02x app].
  destruct i as [| i].
  - injection Hi as ->. split; reflexivity.
  - replace (2 * S i)%nat with (S (S (2 * i))) by lia.
    replace (S (S (2 * i)) + 1)%nat with (S (S (2 * i + 1))) by lia.
    exact (IH i Hi).
Qed.

Lemma print_digest_lookup {n : nat} (d : vec byte n) (i : nat) (b : byte) :
  vec_to_list d !! i = Some b →
  ∃ hi lo,
    print_digest d !! (2 * i)%nat = Some hi
    ∧ print_digest d !! (2 * i + 1)%nat = Some lo
    ∧ hex_value hi = Some (byte_to_Z b / 16)
    ∧ hex_value lo = Some (byte_to_Z b mod 16)
    ∧ (byte_to_Z b < 16 → hi = x30).
Proof.
  intros Hi.
  destruct (printed_lookup _ _ _ Hi) as [Hhi Hlo].
  destruct (printf_02x_digits b) as (Hvhi & Hvlo & _).
  exists (hex_digit (byte_to_Z b / 16)), (hex_digit (byte_to_Z b mod 16)).
  unfold print_digest.
  split; [by apply lookup_app_l_Some |].
  split; [by apply lookup_app_l_Some |].
  split; [exact Hvhi |]. split; [exact Hvlo |].
  intros Hb. pose proof (byte_to_Z_range b).
  rewrite Z.div_small by lia. reflexivity.
Qed.

Lemma print_digest_newline {n : nat} (d : vec byte n) :
  length (print_digest d) = (2 * n + 1)%nat
  ∧ print_digest d !! (2 * n)%nat = Some x0a.
Proof.
  unfold print_digest. split.
  - rewrite length_app, length_printed, length_vec_to_list. simpl. lia.
  - etrans; [apply lookup_app_r |];
      rewrite length_printed, length_vec_to_list; [lia |].
    by rewrite Nat.sub_diag.
Qed.

(** X21: [PrintMd5] writes 33 bytes and [PrintSha256] 65.  Byte [i] of the
    digest is printed at the positions [2 * i] and [2 * i + 1], as the
    character of [0-9a-f] for its upper four bits and then the one for its
    lower four bits, so a byte below 16 is printed with a leading [0]; the
    newline follows the last byte, at position 32 or 64. *)
Theorem printed_digest_format (md5 : Md5Digest) (h : Sha256Digest) :
  length (PrintMd5 md5) = 33%nat
  ∧ length (PrintSha256 h) = 65%nat
  ∧ PrintMd5 md5 !! 32%nat = Some x0a
  ∧ PrintSha256 h !! 64%nat = Some x0a
  ∧ (∀ (i : nat) (b : byte), vec_to_list md5 !! i = Some b →
       ∃ hi lo,
         PrintMd5 md5 !! (2 * i)%nat = Some hi
         ∧ PrintMd5 md5 !! (2 * i + 1)%nat = Some lo
         ∧ hex_value hi = Some (byte_to_Z b / 16)
         ∧ hex_value lo = Some (byte_to_Z b mod 16)
         ∧ (byte_to_Z b < 16 → hi = x30))
  ∧ (∀ (i : nat) (b : byte), vec_to_list h !! i = Some b →
       ∃ hi lo,
         PrintSha256 h !! (2 * i)%nat = Some hi
         ∧ PrintSha256 h !! (2 * i + 1)%nat = Some lo
         ∧ hex_value hi = Some (byte_to_Z b / 16)
         ∧ hex_value lo = Some (byte_to_Z b mod 16)
         ∧ (byte_to_Z b < 16 → hi = x30))
  ∧ (∀ c v, hex_value c = Some v →
       0 ≤ v < 16
       ∧ byte_to_Z c = (if decide (v < 10) then 48 + v else 87 + v)).
Proof.
  unfold PrintMd5, PrintSha256.
  split; [apply (print_digest_newline md5) |].
  split; [apply (print_digest_newline h) |].
  split; [apply (print_digest_newline md5) |].
  split; [apply (print_digest_newline h) |].
  split; [intros i b; apply print_digest_lookup |].
  split; [intros i b; apply print_digest_lookup |].
  intros c v. unfold hex_value.
  repeat case_decide; intros Hv; try discriminate;
    injection Hv as <-; split; try lia;
    case_decide; lia.
Qed.

(** X22: the printed line determines the digest: reading the hexadecimal
    digits back gives the bytes of the digest, so two digests are printed
    alike only when they are equal. *)
Theorem printed_digest_reads_back (md5 md5' : Md5Digest)
    (h h' : Sha256Digest) :
  read_hex (take 32 (PrintMd5 md5)) = Some (vec_to_list md5)
  ∧ read_hex (take 64 (PrintSha256 h)) = Some (vec_to_list h)
  ∧ (PrintMd5 md5 = PrintMd5 md5' ↔ md5 = md5')
  ∧ (PrintSha256 h = PrintSha256 h' ↔ h = h').
Proof.
  assert (Hmd5 : ∀ d : Md5Digest,
    read_hex (take 32 (PrintMd5 d)) = Some (vec_to_list d)).
  { intros d. unfold PrintMd5. rewrite (print_digest_take d) by reflexivity.
    apply read_hex_printed. }
  assert (Hsha : ∀ d : Sha256Digest,
    read_hex (take 64 (PrintSha256 d)) = Some (vec_to_list d)).
  { intros d. unfold PrintSha256.
    rewrite (print_digest_take d) by reflexivity.
    apply read_hex_printed. }
  split; [apply Hmd5 |]. split; [apply Hsha |]. split.
  - split; [| by intros ->]. intros Heq.
    apply vec_to_list_inj2.
    pose proof (Hmd5 md5) as H1. rewrite Heq, Hmd5 in H1. by injection H1.
  - split; [| by intros ->]. intros Heq.
    apply vec_to_list_inj2.
    pose proof (Hsha h) as H1. rewrite Heq, Hsha in H1. by injection H1.
Qed.

(** ** What encoding does not look at *)

Lemma for_loop_ext {A : Type} (body1 body2 : Z → A → result A)
    (count : nat) (i0 : Z) (acc : A) :
  (∀ i a, i0 ≤ i < i0 + Z.of_nat count → body1 i a = body2 i a) →
  for_loop count i0 body1 acc = for_loop count i0 body2 acc.
Proof.
  revert i0 acc. induction count as [| n IH]; intros i0 acc Hext;
    [reflexivity |].
  simpl. rewrite Hext by lia.
  destruct (body2 i0 acc) as [a' | |]; simpl; try reflexivity.
  apply IH. intros i a Hi. apply Hext. lia.
Qed.

(** X23: encoding never consults [is_valid_] or [num_bytes_].  The encoder
    built from [(Params, Deps)] computes the same Bloom filter and masks and
    runs [Encode] exactly as the encoder that the six-argument constructor
    builds from the same values, whether or not that one is valid. *)
Theorem Encode_ignores_validity {S : Type} (sizeof_Bits : Z)
    (params : Params) (deps : Deps.t S) (value : std_string)
    (irr_out : addr) (w : world S) :
  let e1 := Encoder_of_deps params deps in
  let e2 := Encoder_new sizeof_Bits params (Deps.cohort_ deps)
              (Deps.md5_func_ deps) (Deps.client_secret_ deps)
              (Deps.hmac_func_ deps) (Deps.irr_rand_ deps) in
  MakeBloomFilter sizeof_Bits e1 value = MakeBloomFilter sizeof_Bits e2 value
  ∧ GetPrrMasks sizeof_Bits e1 value = GetPrrMasks sizeof_Bits e2 value
  ∧ Encode sizeof_Bits e1 value irr_out w
    = Encode sizeof_Bits e2 value irr_out w.
Proof.
  intros e1 e2. subst e1 e2. unfold Encoder_new, Encoder_of_deps.
  destruct (decide (num_bits params > kMaxBits sizeof_Bits));
    destruct (decide (Z.rem (num_bits params) 8 = 0));
    repeat split; reflexivity.
Qed.

(** X24: the sign of [num_bits] does not matter to the Bloom filter: the
    remainder of C++ takes the sign of the digest byte, which is not
    negative, so an encoder with [num_bits = -n] sets the bits that one with
    [num_bits = n] sets. *)
Theorem MakeBloomFilter_num_bits_sign {S1 S2 : Type} (sizeof_Bits : Z)
    (e1 : Encoder S1) (e2 : Encoder S2) (value : std_string) :
  cohort_ e1 = cohort_ e2 →
  md5_func_ e1 = md5_func_ e2 →
  num_hashes_ e1 = num_hashes_ e2 →
  num_bits_ e2 = - num_bits_ e1 →
  MakeBloomFilter sizeof_Bits e1 value = MakeBloomFilter sizeof_Bits e2 value.
Proof.
  intros Hc Hm Hh Hn. unfold MakeBloomFilter, for_int.
  rewrite Hc, Hm, Hh, Hn.
  apply for_loop_ext. intros i bloom _.
  destruct (array_get _ i) as [b | |]; simpl; try reflexivity.
  unfold int_rem.
  destruct (decide (num_bits_ e1 = 0)) as [H0 | Hne].
  - rewrite H0. reflexivity.
  - rewrite decide_False by lia.
    by rewrite Z.rem_opp_r by exact Hne.
Qed.

Lemma MakeBloomFilter_num_bits_sign_witness :
  let e1 := stub_encoder 8 8 2 0 x0b x0d x00 None None in
  let e2 := stub_encoder 8 (-8) 2 0 x0b x0d x00 None None in
  (cohort_ e1 = cohort_ e2
   ∧ md5_func_ e1 = md5_func_ e2
   ∧ num_hashes_ e1 = num_hashes_ e2
   ∧ num_bits_ e2 = - num_bits_ e1)
  ∧ IsValid e2 = Ret true
  ∧ MakeBloomFilter 8 e1 [x78] = MakeBloomFilter 8 e2 [x78].
Proof.
  intros e1 e2.
  assert (H1 : cohort_ e1 = cohort_ e2) by reflexivity.
  assert (H2 : md5_func_ e1 = md5_func_ e2) by reflexivity.
  assert (H3 : num_hashes_ e1 = num_hashes_ e2) by reflexivity.
  assert (H4 : num_bits_ e2 = - num_bits_ e1) by reflexivity.
  split; [repeat split; assumption |]. split; [reflexivity |].
  exact (MakeBloomFilter_num_bits_sign 8 e1 e2 [x78] H1 H2 H3 H4).
Defined.

Lemma array_get_take {n m : nat} (a : vec byte n) (b : vec byte m)
    (k : nat) (i : Z) :
  take k (vec_to_list a) = take k (vec_to_list b) →
  i < Z.of_nat k →
  array_get a i = array_get b i.
Proof.
  intros Htake Hi. unfold array_get.
  case_decide; [| reflexivity].
  rewrite <- (lookup_take_lt (vec_to_list a) k) by lia.
  rewrite <- (lookup_take_lt (vec_to_list b) k) by lia.
  by rewrite Htake.
Qed.

(** X25: the value that [MakeBloomFilter] returns depends on the MD5 digest
    through its first [num_hashes] bytes only, and the masks that
    [GetPrrMasks] returns depend on the keyed digest through its first
    [num_bits] bytes only: two digest functions whose outputs agree on those
    bytes give the same returned values.  This is about the returned values
    alone: the lines that [PrintMd5] and [PrintSha256] write for the two
    functions show every byte of a digest and are not part of them. *)
Theorem returned_values_depend_on_leading_digest_bytes {S1 S2 : Type}
    (sizeof_Bits : Z) (e1 : Encoder S1) (e2 : Encoder S2)
    (value : std_string) :
  num_bits_ e1 = num_bits_ e2 →
  (cohort_ e1 = cohort_ e2 →
   num_hashes_ e1 = num_hashes_ e2 →
   take (Z.to_nat (num_hashes_ e1))
     (vec_to_list (md5_func_ e1 (hash_input_of (cohort_ e1) value)))
   = take (Z.to_nat (num_hashes_ e1))
       (vec_to_list (md5_func_ e2 (hash_input_of (cohort_ e1) value))) →
   MakeBloomFilter sizeof_Bits e1 value
   = MakeBloomFilter sizeof_Bits e2 value)
  ∧ (prob_f_ e1 = prob_f_ e2 →
     take (Z.to_nat (num_bits_ e1))
       (vec_to_list (hmac_func_ e1 (client_secret_ e1) value))
     = take (Z.to_nat (num_bits_ e1))
         (vec_to_list (hmac_func_ e2 (client_secret_ e2) value)) →
     GetPrrMasks sizeof_Bits e1 value = GetPrrMasks sizeof_Bits e2 value).
Proof.
  intros Hn. split.
  - intros Hc Hh Htake. unfold MakeBloomFilter, for_int.
    rewrite <- Hc, <- Hh, <- Hn.
    apply for_loop_ext. intros i bloom Hi.
    by rewrite (array_get_take _ _ _ i Htake) by lia.
  - intros Hf Htake. unfold GetPrrMasks, for_int.
    rewrite <- Hf, <- Hn.
    destruct (assert _); simpl; try reflexivity.
    destruct (float_to_uint8 _) as [t | |]; simpl; try reflexivity.
    apply for_loop_ext. intros i [u f] Hi.
    by rewrite (array_get_take _ _ _ i Htake) by lia.
Qed.

Lemma returned_values_depend_on_leading_digest_bytes_witness :
  let md5' : Md5Func := λ _,
    [# x03; x05; xff; xff; xff; xff; xff; xff;
       xff; xff; xff; xff; xff; xff; xff; xff] in
  let params := {| num_bits := 8; num_hashes := 2; prob_f := 0 |} in
  let e1 := Encoder_new 8 params 0 (md5_stub x03 x05) [] (hmac_stub x00)
              (fixed_rand None None) in
  let e2 := Encoder_new 8 params 0 md5' [] (hmac_stub x00)
              (fixed_rand None None) in
  (num_bits_ e1 = num_bits_ e2
   ∧ cohort_ e1 = cohort_ e2
   ∧ num_hashes_ e1 = num_hashes_ e2
   ∧ take (Z.to_nat (num_hashes_ e1))
       (vec_to_list (md5_func_ e1 (hash_input_of (cohort_ e1) [x78])))
     = take (Z.to_nat (num_hashes_ e1))
         (vec_to_list (md5_func_ e2 (hash_input_of (cohort_ e1) [x78]))))
  ∧ md5_func_ e1 [] ≠ md5_func_ e2 []
  ∧ MakeBloomFilter 8 e1 [x78] = MakeBloomFilter 8 e2 [x78].
Proof.
  intros md5' params e1 e2.
  assert (H1 : num_bits_ e1 = num_bits_ e2) by reflexivity.
  assert (H2 : cohort_ e1 = cohort_ e2) by reflexivity.
  assert (H3 : num_hashes_ e1 = num_hashes_ e2) by reflexivity.
  assert (H4 : take (Z.to_nat (num_hashes_ e1))
                 (vec_to_list (md5_func_ e1 (hash_input_of (cohort_ e1) [x78])))
               = take (Z.to_nat (num_hashes_ e1))
                   (vec_to_list
                      (md5_func_ e2 (hash_input_of (cohort_ e1) [x78]))))
    by reflexivity.
  split; [repeat split; assumption |]. split; [discriminate |].
  exact (proj1 (returned_values_depend_on_leading_digest_bytes 8 e1 e2 [x78] H1)
           H2 H3 H4).
Defined.


